(** * motiondetect: the frame ring buffer and the FPS counter

    A shallow embedding of [buffer.go] (type [MatBuffer]) and of the FPS
    counter (type [FPSCounter]) of the motiondetect program, with the
    properties of their specification stated and proved over it.

    Conventions of the embedding:
    - Go's [int] and [time.Duration] (64-bit on the target) are [Z] with
      the two's complement wrap-around written out ([Go.wrap]);
    - [float64] is Rocq's primitive binary64 [float];
    - a runtime panic (index out of range, integer division by zero,
      [make] with a negative length or one beyond its limit) is [None]
      in the [option] monad;
    - slices updated by index are lists with stdpp's lookup and insert,
      the bounds check of Go written out in [Go.index] and [Go.store];
    - calls into gocv (releasing a [Mat], the video writer) are oracles
      passed as arguments, and the calls made are recorded in a trace. *)

From Stdlib Require Import ZArith Floats Uint63 String.
From stdpp Require Import base tactics option list numbers.

Local Open Scope Z_scope.

(** ** Go primitives *)

Module Go.

(** [int] and [int64]: the value of a 64-bit two's complement word. *)
Definition wrap (z : Z) : Z := (z + 2 ^ 63) `mod` 2 ^ 64 - 2 ^ 63.

Definition maxInt : Z := 2 ^ 63 - 1.
Definition minInt : Z := - 2 ^ 63.

(** The greatest size in bytes [make] accepts: [maxAlloc] of the Go
    runtime, 2^48 on the 64-bit platforms the program runs on. *)
Definition maxAlloc : Z := 2 ^ 48.

(** [make([]T, n)] for elements of [size] bytes, filled with [x]: panics
    (makeslice: len out of range) when [n] is negative or [n * size]
    exceeds [maxAlloc].  Below that limit the runtime can still run out
    of the memory of the machine, which ends the program with a fatal
    error: what follows a [make] that returned is all the model covers. *)
Definition make {A} (size n : Z) (x : A) : option (list A) :=
  if bool_decide (n < 0 ∨ maxAlloc < n * size) then None
  else Some (replicate (Z.to_nat n) x).

(** [len(s)] as an [int]. *)
Definition len {A} (s : list A) : Z := Z.of_nat (length s).

(** [s[i]]: panics unless [0 <= i < len(s)]. *)
Definition index {A} (s : list A) (i : Z) : option A :=
  if bool_decide (0 ≤ i) then s !! Z.to_nat i else None.

(** [s[i] = x]: panics unless [0 <= i < len(s)]. *)
Definition store {A} (s : list A) (i : Z) (x : A) : option (list A) :=
  if bool_decide (0 ≤ i < len s) then Some (<[Z.to_nat i := x]> s) else None.

(** [a % b] on [int]: truncated remainder, panics when [b] is zero. *)
Definition rem (a b : Z) : option Z :=
  if bool_decide (b = 0) then None else Some (Z.rem a b).

(** [float64(n)] for an [int] [n]: rounds to the nearest binary64.  The
    magnitude goes through Rocq's 63-bit integers, which hold all of them
    but that of the least [int]. *)
Definition float64_of_int (z : Z) : float :=
  if bool_decide (z = minInt) then (-0x1p+63)%float
  else if bool_decide (z < 0)
  then PrimFloat.opp (PrimFloat.of_uint63 (Uint63.of_Z (- z)))
  else PrimFloat.of_uint63 (Uint63.of_Z z).

(** The integer part of a finite binary64, towards zero. *)
Definition trunc_sf (x : spec_float) : option Z :=
  match x with
  | S754_zero _ => Some 0
  | S754_finite s m e =>
      let mag := if bool_decide (0 ≤ e) then Z.pos m * 2 ^ e
                 else Z.pos m `div` 2 ^ (- e) in
      Some (if s then - mag else mag)
  | S754_infinity _ | S754_nan => None
  end.

(** [int(f)] for a [float64] [f]: the fraction is discarded (truncation
    towards zero).  When the value does not fit [int] the Go
    specification leaves the result to the implementation: [None]. *)
Definition int_of_float64 (f : float) : option Z :=
  n ← trunc_sf (Prim2SF f);
  if bool_decide (minInt ≤ n ≤ maxInt) then Some n else None.

End Go.

(** ** Package time *)

Module time.

(** [time.Duration]: an [int64] count of nanoseconds. *)
Abbreviation Duration := Z (only parsing).

Definition Nanosecond : Duration := 1.
Definition Millisecond : Duration := 1000000.
Definition Second : Duration := 1000000000.

(** [time.Time] as the number of nanoseconds since the zero time
    [time.Time{}]; the monotonic clock reading and the location a Go
    [Time] also carries are not observed by the program. *)
Abbreviation Time := Z (only parsing).

Definition zero : Time := 0.

(** [t.Sub(u)]: the difference, saturated to the range of [Duration]. *)
Definition Sub (t u : Time) : Duration :=
  let d := t - u in
  if bool_decide (d < Go.minInt) then Go.minInt
  else if bool_decide (Go.maxInt < d) then Go.maxInt
  else d.

(** [d.Seconds()]:
    [sec := d / Second; nsec := d % Second;
     return float64(sec) + float64(nsec)/1e9]. *)
Definition Seconds (d : Duration) : float :=
  let sec := Z.quot d Second in
  let nsec := Z.rem d Second in
  (Go.float64_of_int sec + Go.float64_of_int nsec / 1e9)%float.

End time.

(** ** gocv, as far as the program observes it *)

Module gocv.

(** A [gocv.Mat]: its dimensions and its pixel content. *)
Record Mat : Type := mkMat { Rows : Z; Cols : Z; pixels : list Z }.

(** [gocv.NewMat()]: the empty matrix. *)
Definition NewMat : Mat := mkMat 0 0 [].

End gocv.

(** Go's [error] values of the program:
    - [ErrExternal]: an error value returned by gocv;
    - [ErrInsufficientFrames]: [fmt.Errorf("need at least 2 frames")];
    - [ErrWriterOpenFailed]: [fmt.Errorf("opening writer failed: %w", err)];
    - [ErrDimensionMismatch]:
      [fmt.Errorf("not all frames have the same dimensions")];
    - [ErrWriteFailed]: [fmt.Errorf("writing image failed: %w", err)]. *)
Inductive error : Type :=
  | ErrExternal (msg : string)
  | ErrInsufficientFrames
  | ErrWriterOpenFailed (cause : error)
  | ErrDimensionMismatch
  | ErrWriteFailed (cause : error).

Import Go time gocv.

(** ** MatBuffer (buffer.go) *)

Module buffer.

(** [type MatBuffer struct { imgs []*gocv.Mat; times []time.Time; writes int }].
    Every element of [imgs] points to a matrix of its own, allocated by
    [NewMatBuffer] and never replaced: [imgs] is the list of the contents
    of these matrices, in slot order. *)
Record MatBuffer : Type := mkMatBuffer {
  imgs : list Mat;
  times : list Time;
  writes : Z
}.

(** [NewMatBuffer(duration, fps)]:
    [frames := int(fps * duration.Seconds())], then [make] of both slices
    (pointers of 8 bytes, [time.Time] values of 24 bytes; a panic when
    [frames] is negative or beyond the limit of [make]) and a fresh [Mat]
    per slot. *)
Definition NewMatBuffer (duration : Duration) (fps : float) : option MatBuffer :=
  frames ← int_of_float64 (fps * Seconds duration)%float;
  imgs0 ← make 8 frames NewMat;
  times0 ← make 24 frames time.zero;
  Some {| imgs := imgs0; times := times0; writes := 0 |}.

(** [b.Add(img, t)]:
    [i := b.writes % len(b.imgs); img.CopyTo(b.imgs[i]); b.times[i] = t;
     b.writes++]. *)
Definition Add (b : MatBuffer) (img : Mat) (t : Time) : option MatBuffer :=
  i ← Go.rem (writes b) (len (imgs b));
  imgs' ← store (imgs b) i img;
  times' ← store (times b) i t;
  Some {| imgs := imgs'; times := times'; writes := wrap (writes b + 1) |}.

(** [b.Count()]: [len(b.imgs)]. *)
Definition Count (b : MatBuffer) : Z := len (imgs b).

(** [b.TimeWindow()]. *)
Definition TimeWindow (b : MatBuffer) : option (Time * Time) :=
  if bool_decide (writes b = 0) then Some (time.zero, time.zero)
  else if bool_decide (writes b ≤ len (imgs b)) then
    oldest ← index (times b) 0;
    newest ← index (times b) (wrap (writes b - 1));
    Some (oldest, newest)
  else
    first ← Go.rem (writes b) (len (imgs b));
    last ← Go.rem (wrap (wrap (writes b - 1) + len (imgs b))) (len (imgs b));
    oldest ← index (times b) first;
    newest ← index (times b) last;
    Some (oldest, newest).

(** [b.Duration()]: [newest.Sub(oldest)] of the time window. *)
Definition Duration (b : MatBuffer) : option time.Duration :=
  '(oldest, newest) ← TimeWindow b;
  Some (Sub newest oldest).

(** [b.FPS()]. *)
Definition FPS (b : MatBuffer) : option float :=
  if bool_decide (writes b < 2) then Some 0%float
  else
    d ← Duration b;
    let seconds := Seconds d in
    if bool_decide (writes b < len (imgs b))
    then Some (float64_of_int (writes b) / seconds)%float
    else Some (float64_of_int (len (imgs b)) / seconds)%float.

(** [b.Slice()]: [b.imgs[0:b.writes]] panics unless
    [0 <= b.writes <= cap(b.imgs)]; [append(b.imgs[i:], b.imgs[:i]...)]
    builds the rotated sequence (in a fresh array unless [i] is 0). *)
Definition Slice (b : MatBuffer) : option (list Mat) :=
  if bool_decide (writes b ≤ len (imgs b)) then
    if bool_decide (0 ≤ writes b) then Some (take (Z.to_nat (writes b)) (imgs b))
    else None
  else
    i ← Go.rem (writes b) (len (imgs b));
    Some (drop (Z.to_nat i) (imgs b) ++ take (Z.to_nat i) (imgs b)).

(** A sequence of [Add] calls. *)
Fixpoint AddAll (b : MatBuffer) (fs : list (Mat * Time)) : option MatBuffer :=
  match fs with
  | [] => Some b
  | (img, t) :: fs' => b' ← Add b img t; AddAll b' fs'
  end.

(** The buffers the program can hold: both slices have the length given at
    construction, and the write counter has not passed the range of [int]. *)
Record wf (b : MatBuffer) : Prop := mkWf {
  wf_times : length (times b) = length (imgs b);
  wf_writes : 0 ≤ writes b;
  wf_range : writes b + len (imgs b) ≤ 2 ^ 63;
  wf_nonempty : 0 < writes b → 0 < len (imgs b)
}.

(** The ring invariant: what a buffer of [C] slots holds after the frames
    [fs] were added, the [k]-th of them in slot [k mod C] as long as it is
    one of the last [C]. *)
Record holds (C : nat) (fs : list (Mat * Time)) (b : MatBuffer) : Prop := mkHolds {
  holds_imgs : length (imgs b) = C;
  holds_times : length (times b) = C;
  holds_writes : writes b = len fs;
  holds_slot : ∀ k : nat, (k < length fs)%nat → (length fs ≤ k + C)%nat →
    imgs b !! (k `mod` C)%nat = fst <$> fs !! k ∧
    times b !! (k `mod` C)%nat = snd <$> fs !! k
}.

(** [b.Close()]:
    [for _, img := range b.imgs { if err == nil { err = img.Close() };
     img.Close() }; return err].
    [release i k] is what the [k]-th call (from 0) of [Close] on the
    matrix of slot [i] returns; the calls made are recorded in order. *)
Definition Close_step (release : nat → nat → option error)
    (st : option error * list (nat * nat)) (i : nat) : option error * list (nat * nat) :=
  let '(err, calls) := st in
  match err with
  | None => (release i 0%nat, calls ++ [(i, 0%nat); (i, 1%nat)])
  | Some _ => (err, calls ++ [(i, 0%nat)])
  end.

Definition Close (release : nat → nat → option error) (b : MatBuffer)
    : option error * list (nat * nat) :=
  foldl (Close_step release) (None, []) (seq 0 (length (imgs b))).

(** The calls [WriteFile] makes on the video writer of gocv. *)
Inductive call : Type :=
  | CallOpen (filename codec : string) (fps : float) (width height : Z)
  | CallWrite (img : Mat)
  | CallClose.

(** The video writer: [vw_open] is the error of [gocv.VideoWriterFile]
    ([None] when a writer is returned), [vw_write accepted img] the error of
    [vw.Write(img)] once the frames [accepted] have been written. *)
Record VideoWriter : Type := mkVideoWriter {
  vw_open : string → string → float → Z → Z → option error;
  vw_write : list Mat → Mat → option error
}.

(** The loop of [WriteFile] over the snapshot. *)
Fixpoint write_frames (vw : VideoWriter) (width height : Z)
    (accepted : list Mat) (imgs : list Mat) : list call * option error :=
  match imgs with
  | [] => ([], None)
  | img :: rest =>
      if bool_decide (Cols img ≠ width ∨ Rows img ≠ height)
      then ([], Some ErrDimensionMismatch)
      else match vw_write vw accepted img with
           | Some e => ([CallWrite img], Some (ErrWriteFailed e))
           | None =>
               let '(calls, r) := write_frames vw width height (accepted ++ [img]) rest in
               (CallWrite img :: calls, r)
           end
  end.

(** [b.WriteFile(filename, codec)]: the calls made on the video writer and
    the error returned ([None] for [nil]); the deferred [vw.Close()] runs
    on every return after the writer was opened. *)
Definition WriteFile (vw : VideoWriter) (b : MatBuffer) (filename codec : string)
    : option (list call * option error) :=
  imgs ← Slice b;
  if bool_decide (len imgs < 2) then Some ([], Some ErrInsufficientFrames)
  else
    first ← index imgs 0;
    let width := Cols first in
    let height := Rows first in
    fps ← FPS b;
    match vw_open vw filename codec fps width height with
    | Some e => Some ([CallOpen filename codec fps width height],
                      Some (ErrWriterOpenFailed e))
    | None =>
        let '(calls, r) := write_frames vw width height [] imgs in
        Some (CallOpen filename codec fps width height :: calls ++ [CallClose], r)
    end.

(** The frames handed to [vw.Write], in order. *)
Definition written (calls : list call) : list Mat :=
  omap (λ c, match c with CallWrite img => Some img | _ => None end) calls.

(** [round] as the specification words the capacity, to be compared with
    the conversion of [NewMatBuffer]: the integer nearest to a binary64
    value, halves away from zero. *)
Definition round_float64 (f : float) : option Z :=
  match Prim2SF f with
  | S754_zero _ => Some 0
  | S754_finite s m e =>
      let mag := if bool_decide (0 ≤ e) then Z.pos m * 2 ^ e
                 else (2 * Z.pos m + 2 ^ (- e)) `div` (2 * 2 ^ (- e)) in
      Some (if s then - mag else mag)
  | S754_infinity _ | S754_nan => None
  end.

(** The capacity in the specification's words,
    [round(fps × retentionDuration)]. *)
Definition spec_capacity (duration : time.Duration) (fps : float) : option Z :=
  round_float64 (fps * Seconds duration)%float.

(** Ten slots, twenty frames 100ms apart: the last ten span 0.9s. *)
Definition evenly_spaced : MatBuffer :=
  {| imgs := replicate 10 (mkMat 2 2 [0; 0; 0; 0]);
     times := (λ k : Z, k * (100 * Millisecond)) <$>
                [10; 11; 12; 13; 14; 15; 16; 17; 18; 19];
     writes := 20 |}.

Definition frame (n : Z) : Mat := mkMat 1 1 [n].

Definition one_frame : MatBuffer :=
  {| imgs := [frame 1; NewMat; NewMat]; times := [10; 0; 0]; writes := 1 |}.

(** Three frames after two wraps, the newest of another size. *)
Definition mixed_sizes : MatBuffer :=
  {| imgs := [mkMat 4 4 [7]; mkMat 2 2 [5]; mkMat 2 2 [6]];
     times := [70; 50; 60];
     writes := 7 |}.

Definition accepting : VideoWriter :=
  {| vw_open := λ _ _ _ _ _, None; vw_write := λ _ _, None |}.

(** The first error of a sequence of results. *)
Definition first_error (results : list (option error)) : option error :=
  head (omap id results).

(** Slot 1 fails to release, slot 2 fails too: all three slots are
    released, and the error of slot 1 is the result. *)
Definition failing_release (i k : nat) : option error :=
  match i, k with
  | 1%nat, 0%nat => Some (ErrExternal "slot 1")
  | 2%nat, 0%nat => Some (ErrExternal "slot 2")
  | _, _ => None
  end.




(** One slot, three frames added. *)
Definition one_slot : MatBuffer :=
  {| imgs := [frame 3]; times := [30]; writes := 3 |}.

(** Frames stamped at a fixed pace: the [k]-th at [t0 + k * dt]. *)
Definition paced (t0 dt : Z) (ms : list Mat) : list (Mat * Time) :=
  imap (λ k m, (m, t0 + Z.of_nat k * dt)) ms.

(** The releases [Close] makes on slot [i]: two while no earlier slot
    failed to release, one from then on. *)
Definition releases_of (release : nat → nat → option error) (i : nat) : list (nat * nat) :=
  if bool_decide (first_error ((λ j, release j 0%nat) <$> seq 0 i) = None)
  then [(i, 0%nat); (i, 1%nat)]
  else [(i, 0%nat)].

(** A writer that opens and then refuses the frame after [k] frames. *)
Definition refusing (k : nat) : VideoWriter :=
  {| vw_open := λ _ _ _ _ _, None;
     vw_write := λ accepted _,
       if bool_decide (length accepted = k) then Some (ErrExternal "disk full") else None |}.

(** A writer that cannot be opened. *)
Definition closed_writer : VideoWriter :=
  {| vw_open := λ _ _ _ _ _, Some (ErrExternal "no codec"); vw_write := λ _ _, None |}.

(** Three frames of one size after two wraps. *)
Definition same_sizes : MatBuffer :=
  {| imgs := [frame 7; frame 5; frame 6]; times := [70; 50; 60]; writes := 7 |}.

End buffer.

(** ** FPSCounter *)

Module counter.

(** [type FPSCounter struct]: the rate last computed, the tick counter,
    the buckets (frame count and duration per second) and the running
    totals.  The [done] channel and the ticker are the source of the
    values the goroutine of [runTicker] receives ([recv]). *)
Record FPSCounter : Type := mkFPSCounter {
  FPS : float;
  ticks : Z;
  frames : list Z;
  durations : list time.Duration;
  totalFrames : Z;
  totalDuration : time.Duration
}.

(** [NewFPSCounter(seconds)]: [make] of both slices ([int] and
    [time.Duration] values of 8 bytes), a panic on a negative length or
    one beyond the limit of [make]. *)
Definition NewFPSCounter (seconds : Z) : option FPSCounter :=
  frames0 ← make 8 seconds 0;
  durations0 ← make 8 seconds 0;
  Some {| FPS := 0%float;
          ticks := 0;
          frames := frames0;
          durations := durations0;
          totalFrames := 0;
          totalDuration := 0 |}.

(** The body of [case t := <-c.ticker.C] in [runTicker]; returns the
    counter and the new [lastTime]. *)
Definition tick (c : FPSCounter) (lastTime t : Time) : option (FPSCounter * Time) :=
  let lastDuration := Sub t lastTime in
  idx ← Go.rem (ticks c) (len (frames c));
  durations1 ← store (durations c) idx lastDuration;
  f ← index (frames c) idx;
  let totalFrames1 := wrap (totalFrames c + f) in
  d ← index durations1 idx;
  let totalDuration1 := wrap (totalDuration c + d) in
  let ticks1 := wrap (ticks c + 1) in
  idx' ← Go.rem ticks1 (len (frames c));
  f' ← index (frames c) idx';
  let totalFrames2 := wrap (totalFrames1 - f') in
  d' ← index durations1 idx';
  let totalDuration2 := wrap (totalDuration1 - d') in
  frames2 ← store (frames c) idx' 0;
  durations2 ← store durations1 idx' 0;
  Some ({| FPS := (float64_of_int totalFrames2 / Seconds totalDuration2)%float;
           ticks := ticks1;
           frames := frames2;
           durations := durations2;
           totalFrames := totalFrames2;
           totalDuration := totalDuration2 |}, t).

(** [c.NextFrame()]: [c.frames[c.ticks % len(c.frames)]++]. *)
Definition NextFrame (c : FPSCounter) : option FPSCounter :=
  idx ← Go.rem (ticks c) (len (frames c));
  f ← index (frames c) idx;
  frames' ← store (frames c) idx (wrap (f + 1));
  Some {| FPS := FPS c; ticks := ticks c; frames := frames';
          durations := durations c; totalFrames := totalFrames c;
          totalDuration := totalDuration c |}.

(** [c.Duration()]. *)
Definition Duration (c : FPSCounter) : time.Duration := totalDuration c.

(** What the goroutine of [runTicker] receives in its [select]: the value
    [Stop] sends on [c.done], or a tick of the ticker.  [Stop] is
    [c.done <- struct{}{}] on an unbuffered channel: it returns when the
    goroutine has received the value. *)
Inductive recv : Type :=
  | RecvDone
  | RecvTick (t : Time).

(** One step of the program: the producer calls [NextFrame], or the
    goroutine completes one [select]. *)
Inductive action : Type :=
  | ActFrame
  | ActRecv (r : recv).

(** The goroutine of [runTicker]: the counter it shares with the producer
    and its local [lastTime]. *)
Record goroutine : Type := mkGoroutine {
  shared : FPSCounter;
  lastTime : Time
}.

(** One iteration of [for { select { ... } }].  The [break] of
    [case <-c.done] ends the [select] statement, the innermost statement
    it is in (not the [for]): the iteration is over and the state is as it
    was. *)
Definition select (g : goroutine) (r : recv) : option goroutine :=
  match r with
  | RecvDone => Some g
  | RecvTick t =>
      '(c, lastTime') ← tick (shared g) (lastTime g) t;
      Some {| shared := c; lastTime := lastTime' |}
  end.

(** The program with every [NextFrame] and every iteration of the loop
    atomic.  The [for] has no condition and no [break] or [return] of its
    own: each [select] is followed by the next, and [c.ticker.Stop()]
    after the loop is never reached. *)
Definition step (g : goroutine) (a : action) : option goroutine :=
  match a with
  | ActFrame =>
      c ← NextFrame (shared g);
      Some {| shared := c; lastTime := lastTime g |}
  | ActRecv r => select g r
  end.

Fixpoint run (g : goroutine) (acts : list action) : option goroutine :=
  match acts with
  | [] => Some g
  | a :: acts' => g' ← step g a; run g' acts'
  end.

(** [runTicker] up to its loop: [lastTime := time.Now()], the ticker is
    created and its first tick is received and dropped. *)
Definition runTicker (c : FPSCounter) (now : Time) (first : Time) : goroutine :=
  {| shared := c; lastTime := now |}.

(** What a tick moves into and out of the running totals: the bucket
    committed (index, frame count, duration) and the bucket evicted. *)
Record moved : Type := mkMoved {
  commit_idx : Z; added_frames : Z; added_duration : time.Duration;
  evict_idx : Z; removed_frames : Z; removed_duration : time.Duration
}.

Definition tick_moved (c : FPSCounter) (lastTime t : Time) : option moved :=
  idx ← Go.rem (ticks c) (len (frames c));
  durations1 ← store (durations c) idx (Sub t lastTime);
  f ← index (frames c) idx;
  d ← index durations1 idx;
  idx' ← Go.rem (wrap (ticks c + 1)) (len (frames c));
  f' ← index (frames c) idx';
  d' ← index durations1 idx';
  Some {| commit_idx := idx; added_frames := f; added_duration := d;
          evict_idx := idx'; removed_frames := f'; removed_duration := d' |}.

(** The counters the program can hold while the tick counter is in the
    range of [int]. *)
Record wf (c : FPSCounter) : Prop := mkWf {
  wf_durations : length (durations c) = length (frames c);
  wf_buckets : (0 < length (frames c))%nat;
  wf_ticks : 0 ≤ ticks c;
  wf_range : ticks c + 1 < 2 ^ 63
}.

(** The bucket log of a run: what each of its ticks moved. *)
Fixpoint run_moved (g : goroutine) (acts : list action) : list moved :=
  match acts with
  | [] => []
  | a :: acts' =>
      let here := match a with
                  | ActRecv (RecvTick t) =>
                      option_list (tick_moved (shared g) (lastTime g) t)
                  | _ => []
                  end in
      here ++ match step g a with
              | Some g' => run_moved g' acts'
              | None => []
              end
  end.

(** The number of ticks among the actions. *)
Fixpoint count_ticks (acts : list action) : nat :=
  match acts with
  | [] => 0%nat
  | ActRecv (RecvTick _) :: acts' => S (count_ticks acts')
  | _ :: acts' => count_ticks acts'
  end.

(** [NextFrame] as the machine runs it: the index is computed from
    [c.ticks], the bucket is loaded, and the incremented value is stored.
    Nothing in the program orders these three accesses with the accesses
    of the goroutine of [runTicker]. *)
Inductive producer : Type :=
  | Idle
  | Indexed (idx : Z)
  | Loaded (idx : Z) (v : Z).

Definition NextFrame_step (p : producer) (c : FPSCounter) : option (producer * FPSCounter) :=
  match p with
  | Idle =>
      idx ← Go.rem (ticks c) (len (frames c));
      Some (Indexed idx, c)
  | Indexed idx =>
      v ← index (frames c) idx;
      Some (Loaded idx v, c)
  | Loaded idx v =>
      frames' ← store (frames c) idx (wrap (v + 1));
      Some (Idle, {| FPS := FPS c; ticks := ticks c; frames := frames';
                     durations := durations c; totalFrames := totalFrames c;
                     totalDuration := totalDuration c |})
  end.

(** Whose turn it is: the producer makes one access of [NextFrame], or
    the goroutine runs one iteration of its loop. *)
Inductive turn : Type :=
  | Producer
  | Ticker (r : recv).

Record machine : Type := mkMachine {
  prod : producer;
  gor : goroutine
}.

Definition race_step (m : machine) (u : turn) : option machine :=
  match u with
  | Producer =>
      '(p, c) ← NextFrame_step (prod m) (shared (gor m));
      Some {| prod := p; gor := {| shared := c; lastTime := lastTime (gor m) |} |}
  | Ticker r =>
      g ← select (gor m) r;
      Some {| prod := prod m; gor := g |}
  end.

Fixpoint race_run (m : machine) (sched : list turn) : option machine :=
  match sched with
  | [] => Some m
  | u :: sched' => m' ← race_step m u; race_run m' sched'
  end.

(** The frames of the committed buckets: all buckets but the one that
    [NextFrame] increments. *)
Definition committed_frames (c : FPSCounter) : Z :=
  foldr Z.add 0 (frames c)
  - default 0 (idx ← Go.rem (ticks c) (len (frames c)); index (frames c) idx).

(** No frame lost and none counted twice: the running total is the
    number of frames in the committed buckets. *)
Definition conserved (c : FPSCounter) : Prop :=
  totalFrames c = wrap (committed_frames c).

(** The counter of the program, [NewFPSCounter(5)]. *)
Definition counter5 : FPSCounter :=
  {| FPS := 0%float; ticks := 0; frames := [0; 0; 0; 0; 0];
     durations := [0; 0; 0; 0; 0]; totalFrames := 0; totalDuration := 0 |}.

(** A counter of one bucket, [NewFPSCounter(1)]. *)
Definition counter1 : FPSCounter :=
  {| FPS := 0%float; ticks := 0; frames := [0];
     durations := [0]; totalFrames := 0; totalDuration := 0 |}.

(** The tick of the ticker at second [n]. *)
Definition second (n : Z) : recv := RecvTick (n * Second).

(** After a tick at tick count [k] committed bucket [k mod N] with frame
    count [f] and duration [d], and [j] more ticks: the bucket is as it was
    committed. *)
Record kept (N k : nat) (f d : Z) (j : nat) (g : goroutine) : Prop := mkKept {
  kept_ticks : ticks (shared g) = Z.of_nat (k + 1 + j);
  kept_frames : length (frames (shared g)) = N;
  kept_durations : length (durations (shared g)) = N;
  kept_count : frames (shared g) !! (k `mod` N)%nat = Some f;
  kept_duration : durations (shared g) !! (k `mod` N)%nat = Some d
}.

(** The running duration is the sum of the bucket durations, and the
    bucket being filled has no duration yet. *)
Definition timed (c : FPSCounter) : Prop :=
  totalDuration c = wrap (foldr Z.add 0 (durations c)) ∧
  (idx ← Go.rem (ticks c) (len (frames c)); index (durations c) idx) = Some 0.

(** A counter in a steady state: every committed bucket holds [R] frames
    over the duration [dt], and the bucket being filled is empty. *)
Definition steady (R dt : Z) (c : FPSCounter) : Prop :=
  let cur := (Z.to_nat (ticks c) `mod` length (frames c))%nat in
  frames c = <[cur := 0]> (replicate (length (frames c)) R) ∧
  durations c = <[cur := 0]> (replicate (length (frames c)) dt).

(** A counter of three buckets, two of them committed with 30 frames
    over one second each. *)
Definition steady3 : FPSCounter :=
  {| FPS := 30%float; ticks := 7; frames := [30; 0; 30];
     durations := [Second; 0; Second]; totalFrames := 60;
     totalDuration := 2 * Second |}.

End counter.

(** ** MotionDetector (motiondetect.go) *)

Module detector.

(** [float32]: the binary32 values, with the arithmetic of the precision
    and exponent range of binary32. *)
Abbreviation float32 := spec_float (only parsing).

(** [float32(n)] for an [int] [n]. *)
Definition float32_of_int (z : Z) : float32 := binary_normalize 24 128 z 0 false.

(** [x + y] and [x <= y] on [float32]. *)
Definition add32 (x y : float32) : float32 := SFadd 24 128 x y.
Definition leb32 (x y : float32) : bool := SFleb x y.

(** [type MotionDetector struct]: the tuning values and the markup
    switches.  [deltaMat], [threshMat] and [bgSubtractor] are objects of
    gocv, passed to gocv and never read by the program. *)
Record MotionDetector : Type := mkMotionDetector {
  Threshold : float32;
  DilateSize : Z;
  MinimumContourArea : float;
  DrawContours : bool;
  DrawRects : bool
}.

(** [NewMotionDetector()]. *)
Definition NewMotionDetector : MotionDetector :=
  {| Threshold := float32_of_int 25;
     DilateSize := 3;
     MinimumContourArea := 3000%float;
     DrawContours := true;
     DrawRects := true |}.

(** A contour found by gocv, as far as [Detected] looks at it: what
    [gocv.ContourArea] and [gocv.BoundingRect] return for it. *)
Record contour : Type := mkContour {
  area : float;
  bounds : Z * Z * Z * Z
}.

(** The calls [Detected] makes on gocv. *)
Inductive cvcall : Type :=
  | CvApply
  | CvThreshold (thresh : float32)
  | CvGetStructuringElement (width height : Z)
  | CvDilate
  | CvFindContours
  | CvDrawContours (i : Z)
  | CvRectangle (rect : Z * Z * Z * Z)
  | CvKernelClose.

(** The markup of one contour: [gocv.DrawContours] if [m.DrawContours],
    then [gocv.Rectangle] if [m.DrawRects]. *)
Definition markup (m : MotionDetector) (i : Z) (c : contour) : list cvcall :=
  (if DrawContours m then [CvDrawContours i] else [])
  ++ (if DrawRects m then [CvRectangle (bounds c)] else []).

(** The loop [for i := 0; i < contours.Size(); i++] of [Detected] from
    index [i] on, over the contours left: [continue] below the minimum
    area, [break] at the first contour when nothing is to be drawn. *)
Fixpoint contour_loop (m : MotionDetector) (hasMarkup : bool) (i : Z)
    (contours : list contour) (motionDetected : bool) : bool * list cvcall :=
  match contours with
  | [] => (motionDetected, [])
  | c :: rest =>
      if (area c <? MinimumContourArea m)%float
      then contour_loop m hasMarkup (wrap (i + 1)) rest motionDetected
      else if negb hasMarkup then (true, [])
      else
        let '(detected, calls) := contour_loop m hasMarkup (wrap (i + 1)) rest true in
        (detected, markup m i c ++ calls)
  end.

(** [m.Detected(img)]: the result and the calls on gocv, for the contours
    [gocv.FindContours] returns. *)
Definition Detected (m : MotionDetector) (contours : list contour) : bool * list cvcall :=
  let hasMarkup := DrawContours m || DrawRects m in
  let '(motionDetected, draws) := contour_loop m hasMarkup 0 contours false in
  (motionDetected,
   [CvApply; CvThreshold (Threshold m);
    CvGetStructuringElement (DilateSize m) (DilateSize m); CvDilate; CvFindContours]
   ++ draws ++ [CvKernelClose]).

(** The contours that count as motion: those whose area is not below
    the minimum. *)
Definition counts (m : MotionDetector) (c : contour) : bool :=
  negb (area c <? MinimumContourArea m)%float.

(** The drawing calls among the calls on gocv. *)
Definition is_draw (c : cvcall) : bool :=
  match c with CvDrawContours _ | CvRectangle _ => true | _ => false end.

Definition drawn (calls : list cvcall) : list cvcall :=
  filter (λ c, is_draw c) calls.

(** The tuning values are positive: [DilateSize] is at least 1, and
    neither [MinimumContourArea] nor [Threshold] is at most 0. *)
Definition tuned (m : MotionDetector) : Prop :=
  1 ≤ DilateSize m ∧
  (MinimumContourArea m <=? 0)%float = false ∧
  leb32 (Threshold m) (S754_zero false) = false.

End detector.

(** ** The keys (main.go) *)

Module keys.

Import detector.

(** The variables of [main.go] that [PollInput] reads and writes. *)
Record globals : Type := mkGlobals {
  Detector : MotionDetector;
  DetectionEnabled : bool;
  FieldChanged : Z;
  Done : bool
}.

(** [rune(k)] for an [int] [k]: the low 32 bits, signed. *)
Definition rune (k : Z) : Z := (k + 2 ^ 31) `mod` 2 ^ 32 - 2 ^ 31.

(** The [case '-', '=':] of [PollInput]: the field chosen by
    [FieldChanged] moves by its step in the direction [dir], and is set
    to its least value when it has reached 0 or less. *)
Definition adjust (field : Z) (dir : Z) (m : MotionDetector) : MotionDetector :=
  if bool_decide (field = 97) then
    let a := (MinimumContourArea m + float64_of_int (wrap (100 * dir)))%float in
    {| Threshold := Threshold m; DilateSize := DilateSize m;
       MinimumContourArea := if (a <=? 0)%float then 100%float else a;
       DrawContours := DrawContours m; DrawRects := DrawRects m |}
  else if bool_decide (field = 100) then
    let d := wrap (DilateSize m + wrap (1 * dir)) in
    {| Threshold := Threshold m;
       DilateSize := if bool_decide (d ≤ 0) then 1 else d;
       MinimumContourArea := MinimumContourArea m;
       DrawContours := DrawContours m; DrawRects := DrawRects m |}
  else if bool_decide (field = 116) then
    let t := add32 (Threshold m) (float32_of_int (wrap (1 * dir))) in
    {| Threshold := if leb32 t (S754_zero false) then float32_of_int 1 else t;
       DilateSize := DilateSize m;
       MinimumContourArea := MinimumContourArea m;
       DrawContours := DrawContours m; DrawRects := DrawRects m |}
  else m.

(** [PollInput(window)] for the key [k] that [window.PollKey()] returns.
    The keys: 3 is ctrl+c, 109 [m], 99 [c], 114 [r], 97 [a], 100 [d],
    116 [t], 45 [-], 61 [=]. *)
Definition PollInput (k : Z) (s : globals) : globals :=
  if bool_decide (k = 3) then
    {| Detector := Detector s; DetectionEnabled := DetectionEnabled s;
       FieldChanged := FieldChanged s; Done := true |}
  else
    let rk := rune k in
    if bool_decide (rk = 109) then
      {| Detector := Detector s; DetectionEnabled := negb (DetectionEnabled s);
         FieldChanged := FieldChanged s; Done := Done s |}
    else if bool_decide (rk = 99) then
      {| Detector :=
           {| Threshold := Threshold (Detector s); DilateSize := DilateSize (Detector s);
              MinimumContourArea := MinimumContourArea (Detector s);
              DrawContours := negb (DrawContours (Detector s));
              DrawRects := DrawRects (Detector s) |};
         DetectionEnabled := DetectionEnabled s;
         FieldChanged := FieldChanged s; Done := Done s |}
    else if bool_decide (rk = 114) then
      {| Detector :=
           {| Threshold := Threshold (Detector s); DilateSize := DilateSize (Detector s);
              MinimumContourArea := MinimumContourArea (Detector s);
              DrawContours := DrawContours (Detector s);
              DrawRects := negb (DrawRects (Detector s)) |};
         DetectionEnabled := DetectionEnabled s;
         FieldChanged := FieldChanged s; Done := Done s |}
    else if bool_decide (rk = 97 ∨ rk = 100 ∨ rk = 116) then
      {| Detector := Detector s; DetectionEnabled := DetectionEnabled s;
         FieldChanged := rk; Done := Done s |}
    else if bool_decide (rk = 45 ∨ rk = 61) then
      let dir := if bool_decide (rk = 45) then -1 else 1 in
      {| Detector := adjust (FieldChanged s) dir (Detector s);
         DetectionEnabled := DetectionEnabled s;
         FieldChanged := FieldChanged s; Done := Done s |}
    else s.

(** The variables when [main] starts its loop: [FieldChanged = 'a'],
    detection off, the detector of [NewMotionDetector]. *)
Definition initial : globals :=
  {| Detector := NewMotionDetector; DetectionEnabled := false;
     FieldChanged := 97; Done := false |}.

(** The variables after a sequence of keys. *)
Definition PollInputs (ks : list Z) (s : globals) : globals :=
  foldl (λ s k, PollInput k s) s ks.

End keys.

(** * Properties of MatBuffer *)

Import buffer.

(** *** Arithmetic of the ring indices *)

Lemma wrap_id z : - 2 ^ 63 ≤ z < 2 ^ 63 → wrap z = z.
Proof. intros H. unfold wrap. rewrite Z.mod_small; lia. Qed.

Lemma mod_apart (C k n : nat) :
  (k < n)%nat → (n < k + C)%nat → (k `mod` C)%nat ≠ (n `mod` C)%nat.
Proof.
  intros Hkn HnC E.
  assert (HC : C ≠ 0%nat) by lia.
  pose proof (Nat.div_mod k C HC) as Hk.
  pose proof (Nat.div_mod n C HC) as Hn.
  rewrite E in Hk.
  assert (Hd : (k `div` C < n `div` C)%nat) by nia.
  nia.
Qed.

Lemma rem_to_nat (w c : Z) :
  0 ≤ w → 0 < c → Z.to_nat (Z.rem w c) = (Z.to_nat w `mod` Z.to_nat c)%nat.
Proof.
  intros Hw Hc. rewrite Z.rem_mod_nonneg by lia. apply Z2Nat.inj_mod; lia.
Qed.

Lemma rem_bounds (w c : Z) : 0 ≤ w → 0 < c → 0 ≤ Z.rem w c < c.
Proof. intros Hw Hc. rewrite Z.rem_mod_nonneg by lia. apply Z.mod_pos_bound; lia. Qed.

(** *** One [Add] *)

Lemma Add_wf (b : MatBuffer) (img : Mat) (t : Time) :
  wf b → 0 < len (imgs b) → writes b + 1 + len (imgs b) ≤ 2 ^ 63 →
  let i := (Z.to_nat (writes b) `mod` length (imgs b))%nat in
  Add b img t = Some {| imgs := <[i := img]> (imgs b);
                        times := <[i := t]> (times b);
                        writes := writes b + 1 |}.
Proof.
  intros [Ht Hw Hr Hn] Hc Hov. unfold Add, Go.rem, store, len in *.
  rewrite bool_decide_eq_false_2 by lia. simpl.
  pose proof (rem_bounds (writes b) (Z.of_nat (length (imgs b))) Hw Hc) as Hb.
  repeat (rewrite bool_decide_eq_true_2 by lia; simpl).
  rewrite rem_to_nat by lia. rewrite Nat2Z.id.
  rewrite wrap_id by lia. reflexivity.
Qed.

Lemma AddAll_app (b : MatBuffer) (fs gs : list (Mat * Time)) :
  AddAll b (fs ++ gs) = b' ← AddAll b fs; AddAll b' gs.
Proof.
  revert b. induction fs as [|[img t] fs IH]; intros b; simpl; [done|].
  destruct (Add b img t) as [b'|]; simpl; [apply IH | done].
Qed.

(** *** The ring invariant: what a buffer holds after a run of [Add]s *)

Lemma holds_wf C fs b :
  (0 < C)%nat → len fs + Z.of_nat C ≤ 2 ^ 63 → holds C fs b → wf b.
Proof.
  intros HC Hn [Hi Ht Hw _]. unfold len in *.
  split; rewrite ?Hi, ?Ht, ?Hw; unfold len; rewrite ?Hi; lia.
Qed.

Lemma holds_fresh (C : nat) :
  holds C [] {| imgs := replicate C NewMat; times := replicate C time.zero; writes := 0 |}.
Proof.
  split; simpl; rewrite ?length_replicate; try done. intros k Hk; lia.
Qed.

Lemma holds_Add C fs b img t :
  (0 < C)%nat → len fs + 1 + Z.of_nat C ≤ 2 ^ 63 → holds C fs b →
  ∃ b', Add b img t = Some b' ∧ holds C (fs ++ [(img, t)]) b'.
Proof.
  intros HC Hn Hb.
  assert (Hwf : wf b) by (eapply holds_wf; [done | | done]; lia).
  destruct Hb as [Hi Ht Hw Hs].
  eexists. split.
  { apply Add_wf; [done | unfold len; lia | unfold len; rewrite Hi, Hw; lia]. }
  rewrite Hw. unfold len. rewrite Nat2Z.id, Hi.
  split; simpl; rewrite ?length_insert; try done.
  { unfold len. rewrite length_app. simpl. lia. }
  intros k Hk HkC. rewrite length_app in Hk, HkC. simpl in Hk, HkC.
  destruct (decide (k = length fs)) as [->|Hne].
  - rewrite !list_lookup_insert_eq
      by (rewrite ?Hi, ?Ht; apply Nat.mod_upper_bound; lia).
    rewrite list_lookup_middle by done. done.
  - assert (Hlt : (k < length fs)%nat) by lia.
    assert (Hap : (length fs `mod` C)%nat ≠ (k `mod` C)%nat).
    { intros E. eapply (mod_apart C k (length fs)); [lia | lia | done]. }
    rewrite !list_lookup_insert_ne by done.
    rewrite lookup_app_l by done. apply Hs; lia.
Qed.

Lemma holds_AddAll C fs :
  (0 < C)%nat → len fs + Z.of_nat C ≤ 2 ^ 63 →
  ∃ b, AddAll {| imgs := replicate C NewMat; times := replicate C time.zero; writes := 0 |} fs
         = Some b ∧ holds C fs b.
Proof.
  intros HC. induction fs as [|[img t] fs IH] using rev_ind; intros Hn.
  - eexists. split; [done | apply holds_fresh].
  - unfold len in Hn. rewrite length_app in Hn. simpl in Hn.
    destruct IH as (b & Hb & Hh); [unfold len; lia|].
    destruct (holds_Add C fs b img t HC) as (b' & Hb' & Hh'); [unfold len; lia | done |].
    exists b'. split; [|done].
    rewrite AddAll_app, Hb. simpl. rewrite Hb'. done.
Qed.

Lemma mod_decomp (C n q r : nat) :
  n = (q * C + r)%nat → (r < C)%nat → (n `mod` C)%nat = r.
Proof. intros -> Hr. symmetry. apply (Nat.mod_unique _ _ q); lia. Qed.

(** The ordered snapshot of a buffer that holds [fs]: the last [C] frames
    of [fs], oldest first ([drop] of a [nat] difference: all of [fs] while
    no more than [C] frames were added). *)
Lemma Slice_holds C fs b :
  (0 < C)%nat → len fs + Z.of_nat C ≤ 2 ^ 63 → holds C fs b →
  Slice b = Some (drop (length fs - C) fs.*1).
Proof.
  intros HC Hn [Hi Ht Hw Hs]. unfold Slice, Go.rem, len in *. rewrite Hw, Hi.
  case_bool_decide as Hle.
  - rewrite bool_decide_eq_true_2 by lia. f_equal. rewrite Nat2Z.id.
    replace (length fs - C)%nat with 0%nat by lia. rewrite drop_0.
    apply list_eq. intros i. rewrite list_lookup_fmap.
    destruct (decide (i < length fs)%nat) as [Hlt|Hge].
    + rewrite lookup_take_lt by done.
      destruct (Hs i Hlt) as [<- _]; [lia|]. rewrite Nat.mod_small by lia. done.
    + rewrite lookup_take_ge by lia. rewrite lookup_ge_None_2 by lia. done.
  - rewrite bool_decide_eq_false_2 by lia. simpl. f_equal.
    rewrite rem_to_nat by lia. rewrite !Nat2Z.id.
    set (n := length fs) in *. set (i0 := (n `mod` C)%nat).
    assert (Hi0 : (i0 < C)%nat) by (apply Nat.mod_upper_bound; lia).
    assert (Hdm : n = (n `div` C * C + i0)%nat).
    { pose proof (Nat.div_mod n C) as H. fold i0 in H. lia. }
    assert (Hq : (1 ≤ n `div` C)%nat) by nia.
    apply list_eq. intros j. rewrite (lookup_drop fs.*1), list_lookup_fmap.
    destruct (decide (j < C - i0)%nat) as [Hj|Hj].
    + rewrite lookup_app_l by (rewrite length_drop; lia). rewrite lookup_drop.
      destruct (Hs (n - C + j)%nat) as [E _]; [lia | lia |].
      rewrite (mod_decomp C (n - C + j) (n `div` C - 1) (i0 + j)) in E by nia.
      done.
    + rewrite lookup_app_r by (rewrite length_drop; lia). rewrite length_drop, Hi.
      destruct (decide (j < C)%nat) as [HjC|HjC].
      * rewrite lookup_take_lt by lia.
        destruct (Hs (n - C + j)%nat) as [E _]; [lia | lia |].
        rewrite (mod_decomp C (n - C + j) (n `div` C) (j - (C - i0))) in E by nia.
        done.
      * rewrite lookup_take_ge by lia. rewrite lookup_ge_None_2 by lia. done.
Qed.

(** The time window of a buffer that holds [fs]: the timestamps of the
    oldest retained frame and of the last frame added. *)
Lemma TimeWindow_holds C fs b :
  (0 < C)%nat → len fs + Z.of_nat C ≤ 2 ^ 63 → holds C fs b →
  TimeWindow b =
    if bool_decide (fs = []) then Some (time.zero, time.zero)
    else oldest ← fs.*2 !! (length fs - C)%nat;
         newest ← fs.*2 !! (length fs - 1)%nat;
         Some (oldest, newest).
Proof.
  intros HC Hn [Hi Ht Hw Hs]. unfold TimeWindow, Go.rem, index, len in *.
  rewrite Hw, Hi. set (n := length fs) in *.
  destruct (decide (fs = [])) as [->|Hne].
  { rewrite !bool_decide_eq_true_2 by done. done. }
  assert (Hpos : (0 < n)%nat) by (destruct fs; [done | simpl in *; lia]).
  rewrite (bool_decide_eq_false_2 (_ = 0)) by lia.
  rewrite (bool_decide_eq_false_2 (fs = [])) by done.
  rewrite !list_lookup_fmap.
  case_bool_decide as Hle.
  - rewrite wrap_id by lia. rewrite !bool_decide_eq_true_2 by lia.
    replace (n - C)%nat with 0%nat by lia.
    destruct (Hs 0%nat) as [_ E0]; [lia | lia |].
    rewrite Nat.Div0.mod_0_l in E0. change (Z.to_nat 0) with 0%nat. rewrite E0.
    destruct (Hs (n - 1)%nat) as [_ E1]; [lia | lia |].
    rewrite Nat.mod_small in E1 by lia.
    replace (Z.to_nat (Z.of_nat n - 1)) with (n - 1)%nat by lia. rewrite E1. done.
  - rewrite (wrap_id (Z.of_nat n - 1)) by lia. rewrite wrap_id by lia.
    rewrite !bool_decide_eq_false_2 by lia. simpl.
    pose proof (rem_bounds (Z.of_nat n) (Z.of_nat C)) as B1.
    pose proof (rem_bounds (Z.of_nat n - 1 + Z.of_nat C) (Z.of_nat C)) as B2.
    rewrite !bool_decide_eq_true_2 by lia.
    rewrite !rem_to_nat by lia. rewrite !Nat2Z.id.
    assert (Hdm : n = (n `div` C * C + n `mod` C)%nat).
    { pose proof (Nat.div_mod n C). lia. }
    assert (Hi0 : (n `mod` C < C)%nat) by (apply Nat.mod_upper_bound; lia).
    assert (Hq : (1 ≤ n `div` C)%nat) by nia.
    destruct (Hs (n - C)%nat) as [_ E0]; [lia | lia |].
    rewrite (mod_decomp C (n - C) (n `div` C - 1) (n `mod` C)) in E0 by nia.
    rewrite E0.
    destruct (Hs (n - 1)%nat) as [_ E1]; [lia | lia |].
    replace (Z.to_nat (Z.of_nat n - 1 + Z.of_nat C)) with (n - 1 + C)%nat by lia.
    replace ((n - 1 + C) `mod` C)%nat with ((n - 1) `mod` C)%nat.
    2:{ rewrite <- (Nat.Div0.mod_add (n - 1) 1 C). f_equal. lia. }
    rewrite E1. done.
Qed.

(** *** Well-formed buffers *)

Lemma make_Some {A} (size n : Z) (x : A) l :
  make size n x = Some l ↔
  (0 ≤ n ∧ n * size ≤ maxAlloc) ∧ l = replicate (Z.to_nat n) x.
Proof.
  unfold make. case_bool_decide as H; split.
  - done.
  - intros [? _]. lia.
  - intros [= <-]. split; [lia | done].
  - by intros [_ ->].
Qed.

Lemma NewMatBuffer_Some duration fps b :
  NewMatBuffer duration fps = Some b ↔
  ∃ frames, int_of_float64 (fps * Seconds duration)%float = Some frames ∧
    (0 ≤ frames ∧ frames * 24 ≤ maxAlloc) ∧
    b = {| imgs := replicate (Z.to_nat frames) NewMat;
           times := replicate (Z.to_nat frames) time.zero;
           writes := 0 |}.
Proof.
  unfold NewMatBuffer.
  destruct (int_of_float64 _) as [frames|]; simpl;
    [|split; [done | intros (f & ? & _); done]].
  split.
  - destruct (make 8 frames NewMat) as [imgs0|] eqn:E8; simpl; [|done].
    destruct (make 24 frames time.zero) as [times0|] eqn:E24; simpl; [|done].
    intros [= <-].
    apply make_Some in E8 as [_ ->]. apply make_Some in E24 as [H24 ->].
    by exists frames.
  - intros (f & [= <-] & [Hpos Hlim] & ->).
    rewrite (proj2 (make_Some 8 frames NewMat _)) by (split; [lia | done]). simpl.
    rewrite (proj2 (make_Some 24 frames time.zero _)) by done. done.
Qed.

(** One second at 10^18 frames per second: [make] panics. *)
Example NewMatBuffer_beyond_make : NewMatBuffer Second 1e18%float = None.
Proof. vm_compute. reflexivity. Qed.

Lemma int_of_float64_range f n : int_of_float64 f = Some n → minInt ≤ n ≤ maxInt.
Proof.
  unfold int_of_float64. destruct (trunc_sf _) as [m|]; simpl; [|done].
  case_bool_decide; [|done]. intros [= <-]. done.
Qed.

Lemma wf_NewMatBuffer duration fps b : NewMatBuffer duration fps = Some b → wf b.
Proof.
  intros (frames & Hf & Hpos & ->)%NewMatBuffer_Some.
  apply int_of_float64_range in Hf. unfold maxInt in Hf.
  split; simpl; unfold len; rewrite ?length_replicate; lia.
Qed.

Lemma wf_Add b img t b' :
  wf b → writes b + 1 + len (imgs b) ≤ 2 ^ 63 → Add b img t = Some b' → wf b'.
Proof.
  intros Hwf Hov HA.
  assert (Hc : 0 < len (imgs b)).
  { unfold Add, Go.rem in HA. case_bool_decide as E; [done|]. unfold len in *. lia. }
  rewrite Add_wf in HA by done. injection HA as <-.
  destruct Hwf as [Ht Hw Hr Hn].
  split; simpl; unfold len in *; rewrite ?length_insert; lia.
Qed.

Lemma TimeWindow_wf b : wf b → is_Some (TimeWindow b).
Proof.
  intros [Ht Hw Hr Hn]. unfold TimeWindow, Go.rem, index, len in *.
  case_bool_decide as E0; [done|].
  assert (Hc : 0 < Z.of_nat (length (imgs b))) by lia.
  case_bool_decide as Hle.
  - rewrite wrap_id by lia. rewrite !bool_decide_eq_true_2 by lia.
    destruct (lookup_lt_is_Some_2 (times b) (Z.to_nat 0)) as [o ->]; [lia|].
    destruct (lookup_lt_is_Some_2 (times b) (Z.to_nat (writes b - 1))) as [n ->]; [lia|].
    done.
  - rewrite (wrap_id (writes b - 1)) by lia. rewrite wrap_id by lia.
    rewrite !bool_decide_eq_false_2 by lia. simpl.
    pose proof (rem_bounds (writes b) _ Hw Hc) as B1.
    pose proof (rem_bounds (writes b - 1 + Z.of_nat (length (imgs b))) _ ltac:(lia) Hc) as B2.
    rewrite !bool_decide_eq_true_2 by lia.
    destruct (lookup_lt_is_Some_2 (times b)
      (Z.to_nat (Z.rem (writes b) (Z.of_nat (length (imgs b)))))) as [o ->]; [lia|].
    destruct (lookup_lt_is_Some_2 (times b)
      (Z.to_nat (Z.rem (writes b - 1 + Z.of_nat (length (imgs b)))
                       (Z.of_nat (length (imgs b)))))) as [n ->]; [lia|].
    done.
Qed.

Lemma Duration_wf b : wf b → is_Some (Duration b).
Proof.
  intros [[o n] E]%TimeWindow_wf. unfold Duration. rewrite E. done.
Qed.

Lemma FPS_wf b : wf b → is_Some (FPS b).
Proof.
  intros [d E]%Duration_wf. unfold FPS. rewrite E. simpl.
  repeat case_bool_decide; done.
Qed.

Lemma Slice_wf b :
  wf b → ∃ snapshot, Slice b = Some snapshot ∧ len snapshot = writes b `min` Count b.
Proof.
  intros [Ht Hw Hr Hn]. unfold Slice, Go.rem, Count, len in *.
  case_bool_decide as Hle.
  - rewrite bool_decide_eq_true_2 by done. eexists. split; [done|].
    rewrite length_take. lia.
  - rewrite bool_decide_eq_false_2 by lia. simpl. eexists. split; [done|].
    pose proof (rem_bounds (writes b) (Z.of_nat (length (imgs b))) Hw ltac:(lia)).
    rewrite length_app, length_drop, length_take. lia.
Qed.

(** *** Construction *)

(** [int(f)] discards the fraction, towards zero. *)
Example int_of_float64_truncates :
  int_of_float64 2.75%float = Some 2 ∧
  int_of_float64 (-2.75)%float = Some (-2) ∧
  int_of_float64 149.9375%float = Some 149 ∧
  int_of_float64 0x1p+62%float = Some (2 ^ 62) ∧
  int_of_float64 0x1p+63%float = None ∧
  int_of_float64 nan = None.
Proof. split_and!; vm_compute; reflexivity. Qed.

Lemma Add_Count b img t b' : Add b img t = Some b' → Count b' = Count b.
Proof.
  unfold Add, Count, store, Go.rem, len. intros H.
  repeat (case_bool_decide; simplify_option_eq); try done.
  by rewrite length_insert.
Qed.

Lemma AddAll_Count fs : ∀ b b', AddAll b fs = Some b' → Count b' = Count b.
Proof.
  induction fs as [|[img t] fs IH]; simpl; intros b b' H.
  - by injection H as <-.
  - destruct (Add b img t) as [b1|] eqn:E; simpl in H; [|done].
    rewrite (IH _ _ H). by eapply Add_Count.
Qed.

(** C5, as stated, fails: a buffer for one second at 2.75 frames per
    second has 2 slots, and 2.75 rounds to 3. *)
Lemma NewMatBuffer_capacity_not_round :
  ¬ (∀ duration fps b, NewMatBuffer duration fps = Some b →
       Some (Count b) = spec_capacity duration fps).
Proof.
  intros H.
  specialize (H Second 2.75%float
    {| imgs := [NewMat; NewMat]; times := [time.zero; time.zero]; writes := 0 |}).
  vm_compute in H. specialize (H eq_refl). discriminate H.
Qed.

(** C5, amended: [NewMatBuffer] allocates [int(fps * duration.Seconds())]
    slots, the product with its fraction discarded (no buffer is built
    when that is negative, not an [int] or more than [make] accepts);
    the two slices have this
    length, no frame is written yet, and no later [Add] changes the
    capacity. *)
Theorem NewMatBuffer_capacity duration fps b :
  NewMatBuffer duration fps = Some b →
  int_of_float64 (fps * Seconds duration)%float = Some (Count b) ∧
  0 ≤ Count b ∧
  len (times b) = Count b ∧
  writes b = 0 ∧
  ∀ fs b', AddAll b fs = Some b' → Count b' = Count b.
Proof.
  intros (frames & Hf & Hpos & ->)%NewMatBuffer_Some.
  unfold Count, len. simpl. rewrite !length_replicate, Z2Nat.id by lia.
  split_and!; try done; try lia.
  intros fs b' H. apply AddAll_Count in H. unfold Count, len in H. simpl in H.
  rewrite length_replicate in H. unfold Count, len. lia.
Qed.

Lemma NewMatBuffer_capacity_witness :
  NewMatBuffer (5 * Second) 2.5%float
    = Some {| imgs := replicate 12 NewMat; times := replicate 12 time.zero; writes := 0 |} ∧
  int_of_float64 (2.5 * Seconds (5 * Second)%Z)%float = Some 12.
Proof.
  split; [vm_compute; reflexivity|].
  refine (proj1 (NewMatBuffer_capacity (5 * Second) 2.5%float
    {| imgs := replicate 12 NewMat; times := replicate 12 time.zero; writes := 0 |} _)).
  vm_compute. reflexivity.
Defined.

(** *** The rate estimate *)

Lemma FPS_of_Duration b d :
  Duration b = Some d →
  FPS b = Some (if bool_decide (writes b < 2) then 0%float
                else (float64_of_int (writes b `min` Count b) / Seconds d)%float).
Proof.
  intros E. unfold FPS, Count. rewrite E. simpl.
  repeat case_bool_decide; try done.
  - by rewrite Z.min_l by lia.
  - by rewrite Z.min_r by lia.
Qed.

(** C3: [FPS] is 0 while fewer than 2 frames were added; otherwise it is
    [min(w, capacity)] divided by the seconds of [Duration]. *)
Theorem FPS_estimated_rate b :
  wf b →
  ∃ d, Duration b = Some d ∧
    FPS b = Some (if bool_decide (writes b < 2) then 0%float
                  else (float64_of_int (writes b `min` Count b) / Seconds d)%float).
Proof.
  intros [d E]%Duration_wf. exists d. split; [done|].
  unfold FPS, Count. rewrite E. simpl.
  case_bool_decide; [done|].
  case_bool_decide.
  - rewrite Z.min_l by lia. done.
  - rewrite Z.min_r by lia. done.
Qed.

Lemma FPS_estimated_rate_witness :
  wf evenly_spaced ∧
  ∃ d, Duration evenly_spaced = Some d ∧
    FPS evenly_spaced =
      Some (if bool_decide (writes evenly_spaced < 2) then 0%float
            else (float64_of_int (writes evenly_spaced `min` Count evenly_spaced)
                  / Seconds d)%float).
Proof.
  split; [split; simpl; unfold len; simpl; lia|].
  apply (FPS_estimated_rate evenly_spaced).
  split; simpl; unfold len; simpl; lia.
Defined.

(** *** The ordered snapshot *)

(** C4: the snapshot of a buffer built by [NewMatBuffer] and filled by a
    run of [Add]s.  With [w] writes and capacity [C]: the first [w] slots
    when [w <= C], the slots from [w mod C] on followed by those before
    [w mod C] when [w > C]; all the frames added, in insertion order, until
    the buffer is full, and from then on (after [C + k] calls, [k >= 1])
    the last [C] of them, in insertion order. *)
Theorem Slice_chronological duration fps b0 fs :
  NewMatBuffer duration fps = Some b0 →
  0 < Count b0 →
  len fs + Count b0 ≤ 2 ^ 63 →
  ∃ b snapshot,
    AddAll b0 fs = Some b ∧ Slice b = Some snapshot ∧
    writes b = len fs ∧ Count b = Count b0 ∧
    (writes b ≤ Count b →
       snapshot = take (Z.to_nat (writes b)) (imgs b) ∧ snapshot = fs.*1) ∧
    (Count b < writes b →
       let i := Z.to_nat (writes b `mod` Count b) in
       snapshot = drop i (imgs b) ++ take i (imgs b)) ∧
    (∀ k : nat, (1 ≤ k)%nat → len fs = Count b + Z.of_nat k →
       len snapshot = Count b ∧ snapshot = drop k fs.*1).
Proof.
  intros (frames & Hf & Hpos & ->)%NewMatBuffer_Some.
  unfold Count at 1 2, len at 1 3. simpl. rewrite length_replicate.
  set (C := Z.to_nat frames). intros HC Hn.
  destruct (holds_AddAll C fs) as (b & Hb & Hh); [lia | unfold len in *; lia |].
  assert (HS := Slice_holds C fs b ltac:(lia) ltac:(unfold len in *; lia) Hh).
  destruct Hh as [Hi Ht Hw Hs].
  exists b, (drop (length fs - C) fs.*1).
  unfold Count, len in *. rewrite Hi, Hw.
  split_and!; try done.
  - simpl. by rewrite length_replicate.
  - intros Hle. replace (length fs - C)%nat with 0%nat by lia. rewrite drop_0.
    split; [|done]. unfold Slice, Go.rem, len in HS. rewrite Hw, Hi in HS.
    rewrite !bool_decide_eq_true_2 in HS by lia.
    replace (length fs - C)%nat with 0%nat in HS by lia. rewrite drop_0 in HS.
    by injection HS as <-.
  - intros Hlt. simpl. unfold Slice, Go.rem, len in HS. rewrite Hw, Hi in HS.
    rewrite !bool_decide_eq_false_2 in HS by lia. simpl in HS.
    rewrite Z.rem_mod_nonneg in HS by lia. by injection HS as <-.
  - intros k Hk Hlen. replace (length fs - C)%nat with k by lia.
    split; [|done]. rewrite length_drop, length_fmap. lia.
Qed.

Lemma Slice_chronological_witness :
  ∃ b0, NewMatBuffer (3 * Second) 1%float = Some b0 ∧ 0 < Count b0 ∧
  ∃ b, AddAll b0 [(frame 1, 10); (frame 2, 20); (frame 3, 30); (frame 4, 40);
                  (frame 5, 50)] = Some b ∧
       Slice b = Some [frame 3; frame 4; frame 5].
Proof.
  eexists. split; [vm_compute; reflexivity|]. split; [vm_compute; reflexivity|].
  destruct (Slice_chronological (3 * Second) 1%float
    {| imgs := replicate 3 NewMat; times := replicate 3 time.zero; writes := 0 |}
    [(frame 1, 10); (frame 2, 20); (frame 3, 30); (frame 4, 40); (frame 5, 50)])
    as (b & snapshot & Hb & HS & _ & _ & _ & _ & Hk).
  - vm_compute. reflexivity.
  - vm_compute. reflexivity.
  - vm_compute. discriminate.
  - exists b. split; [exact Hb|]. rewrite HS.
    destruct (Hk 2%nat) as [_ ->].
    + repeat constructor.
    + apply AddAll_Count in Hb. rewrite Hb. vm_compute. reflexivity.
    + reflexivity.
Defined.

(** *** Export *)

(** C6: with fewer than 2 frames in the buffer, [WriteFile] returns the
    error "need at least 2 frames" and makes no call on the video writer:
    it is not opened and no frame is written. *)
Theorem WriteFile_insufficient_frames vw b filename codec :
  wf b →
  writes b `min` Count b < 2 →
  WriteFile vw b filename codec = Some ([], Some ErrInsufficientFrames).
Proof.
  intros Hwf Hmin. destruct (Slice_wf b Hwf) as (snapshot & HS & Hlen).
  unfold WriteFile. rewrite HS. simpl.
  rewrite bool_decide_eq_true_2 by lia. done.
Qed.

Lemma WriteFile_insufficient_frames_witness :
  wf one_frame ∧ writes one_frame `min` Count one_frame < 2 ∧
  ∀ vw, WriteFile vw one_frame "video.mp4" "mp4v" = Some ([], Some ErrInsufficientFrames).
Proof.
  split; [split; simpl; unfold len; simpl; lia|].
  split; [vm_compute; reflexivity|].
  intros vw. apply (WriteFile_insufficient_frames vw one_frame).
  - split; simpl; unfold len; simpl; lia.
  - vm_compute. reflexivity.
Defined.

Lemma written_writes (ms : list Mat) : written (CallWrite <$> ms) = ms.
Proof.
  induction ms as [|m ms IH]; [done|].
  change (written (CallWrite <$> m :: ms)) with (m :: written (CallWrite <$> ms)).
  by rewrite IH.
Qed.

Lemma written_session filename codec fps width height (ms : list Mat) :
  written (CallOpen filename codec fps width height :: (CallWrite <$> ms) ++ [CallClose]) = ms.
Proof.
  change (written (CallOpen filename codec fps width height :: (CallWrite <$> ms) ++ [CallClose]))
    with (written ((CallWrite <$> ms) ++ [CallClose])).
  unfold written. rewrite omap_app. simpl. rewrite app_nil_r. apply written_writes.
Qed.

(** The loop on a snapshot with a frame of another size: only frames
    before it reach the writer, and the loop ends with an error. *)
Lemma write_frames_mismatch vw width height bad post :
  Cols bad ≠ width ∨ Rows bad ≠ height →
  ∀ pre acc0,
    Forall (λ m, Cols m = width ∧ Rows m = height) pre →
    ∃ pre' err,
      write_frames vw width height acc0 (pre ++ bad :: post) = (CallWrite <$> pre', Some err) ∧
      pre' `prefix_of` pre ∧
      ((∀ acc m, (acc ++ [m]) `prefix_of` pre → vw_write vw (acc0 ++ acc) m = None) →
       pre' = pre ∧ err = ErrDimensionMismatch).
Proof.
  intros Hbad pre. induction pre as [|m pre IH]; intros acc0 Hpre; simpl.
  - exists [], ErrDimensionMismatch.
    case_bool_decide; [|done]. split_and!; done.
  - apply Forall_cons_1 in Hpre as [[Hc Hr] Hpre].
    assert (Hok : ¬ (Cols m ≠ width ∨ Rows m ≠ height)) by (intros [?|?]; done).
    destruct (vw_write vw acc0 m) as [e|] eqn:Ew.
    + exists [m], (ErrWriteFailed e).
      case_bool_decide; [done|].
      split_and!; [done | by apply prefix_cons, prefix_nil |].
      intros Hacc. specialize (Hacc [] m (prefix_cons _ _ _ (prefix_nil _))).
      rewrite app_nil_r in Hacc. congruence.
    + destruct (IH (acc0 ++ [m]) Hpre) as (pre' & err & E & Hpf & Hall).
      exists (m :: pre'), err.
      case_bool_decide; [done|]. rewrite E.
      split_and!; [done | by apply prefix_cons |].
      intros Hacc. destruct Hall as [-> ->]; [|done].
      intros acc m' Hp. rewrite <- app_assoc. simpl.
      apply (Hacc (m :: acc) m'). simpl. by apply prefix_cons.
Qed.

(** C7: the frames are handed to the writer in the order of the snapshot,
    and a frame whose size differs from the first frame's ends the export:
    neither it nor any later frame is written, whatever the writer does,
    and the export fails; it fails with "not all frames have the same
    dimensions" when the writer was opened and took the frames before. *)
Theorem WriteFile_dimension_mismatch vw b filename codec first pre bad post :
  wf b →
  Slice b = Some (pre ++ bad :: post) →
  head (pre ++ bad :: post) = Some first →
  Forall (λ m, Cols m = Cols first ∧ Rows m = Rows first) pre →
  Cols bad ≠ Cols first ∨ Rows bad ≠ Rows first →
  ∃ calls err,
    WriteFile vw b filename codec = Some (calls, Some err) ∧
    written calls `prefix_of` pre ∧
    (∀ fps, FPS b = Some fps →
       vw_open vw filename codec fps (Cols first) (Rows first) = None →
       (∀ acc m, (acc ++ [m]) `prefix_of` pre → vw_write vw acc m = None) →
       err = ErrDimensionMismatch ∧ written calls = pre).
Proof.
  intros Hwf HS Hhd Hpre Hbad.
  destruct (FPS_wf b Hwf) as [fps Hfps].
  destruct pre as [|m pre].
  { simpl in Hhd. injection Hhd as <-. destruct Hbad; done. }
  simpl in Hhd. injection Hhd as ->.
  unfold WriteFile. rewrite HS. simpl.
  rewrite bool_decide_eq_false_2
    by (unfold len; simpl; rewrite length_app; simpl; lia).
  unfold index. simpl. rewrite Hfps. simpl.
  destruct (vw_open vw filename codec fps (Cols first) (Rows first)) as [e|] eqn:Eo.
  - eexists _, _. split_and!; [done | apply prefix_nil |].
    intros fps' [= <-] Ho. congruence.
  - destruct (write_frames_mismatch vw (Cols first) (Rows first) bad post Hbad
      (first :: pre) [] Hpre) as (pre' & err & E & Hpf & Hall).
    simpl in E. simpl. rewrite E.
    eexists _, _. split; [done|]. rewrite written_session. split; [done|].
    intros fps' [= <-] _ Hacc. destruct Hall as [-> ->]; done.
Qed.

Lemma WriteFile_dimension_mismatch_witness :
  wf mixed_sizes ∧
  Slice mixed_sizes = Some ([mkMat 2 2 [5]; mkMat 2 2 [6]] ++ mkMat 4 4 [7] :: []) ∧
  ∃ calls err,
    WriteFile accepting mixed_sizes "video.mp4" "mp4v" = Some (calls, Some err) ∧
    written calls `prefix_of` [mkMat 2 2 [5]; mkMat 2 2 [6]].
Proof.
  split; [split; simpl; unfold len; simpl; lia|].
  split; [vm_compute; reflexivity|].
  destruct (WriteFile_dimension_mismatch accepting mixed_sizes "video.mp4" "mp4v"
    (mkMat 2 2 [5]) [mkMat 2 2 [5]; mkMat 2 2 [6]] (mkMat 4 4 [7]) [])
    as (calls & err & HW & Hp & _).
  - split; simpl; unfold len; simpl; lia.
  - vm_compute. reflexivity.
  - reflexivity.
  - repeat constructor.
  - left. simpl. lia.
  - exists calls, err. split; [exact HW | exact Hp].
Defined.

(** *** Close *)

Lemma Close_loop release idxs : ∀ err calls,
  ∃ calls',
    foldl (Close_step release) (err, calls) idxs =
      (match err with
       | Some e => Some e
       | None => first_error ((λ i, release i 0%nat) <$> idxs)
       end, calls ++ calls') ∧
    (∀ i, i ∈ idxs → (i, 0%nat) ∈ calls') ∧
    (∀ i k, (i, k) ∈ calls' → i ∈ idxs ∧ (k ≤ 1)%nat).
Proof.
  induction idxs as [|i idxs IH]; intros err calls; simpl.
  - exists []. rewrite app_nil_r. split_and!.
    + by destruct err.
    + intros i Hi. by apply elem_of_nil in Hi.
    + intros i k Hi. by apply elem_of_nil in Hi.
  - destruct err as [e|].
    + destruct (IH (Some e) (calls ++ [(i, 0%nat)])) as (calls' & -> & Hin & Hout).
      exists ((i, 0%nat) :: calls'). rewrite <- app_assoc. split_and!; [done | |].
      * intros j [->|Hj]%elem_of_cons; [left | right; by apply Hin].
      * intros j k [[= -> ->]|Hj]%elem_of_cons.
        -- split; [left | lia].
        -- destruct (Hout j k Hj). split; [by right | done].
    + destruct (IH (release i 0%nat) (calls ++ [(i, 0%nat); (i, 1%nat)]))
        as (calls' & -> & Hin & Hout).
      exists ((i, 0%nat) :: (i, 1%nat) :: calls'). rewrite <- app_assoc.
      split_and!.
      * unfold first_error. simpl. by destruct (release i 0%nat).
      * intros j [->|Hj]%elem_of_cons; [left | right; right; by apply Hin].
      * intros j k [[= -> ->]|[[= -> ->]|Hj]%elem_of_cons]%elem_of_cons.
        -- split; [left | lia].
        -- split; [left | lia].
        -- destruct (Hout j k Hj). split; [by right | done].
Qed.

(** [Close] calls the release of the matrix of every slot, also after
    one of them failed, at most twice per slot, and returns the first
    error among the first releases of the slots, [nil] when every
    release made succeeds. *)
Lemma Close_releases_all release b :
  let '(err, calls) := Close release b in
  (∀ i : nat, (i < length (imgs b))%nat → (i, 0%nat) ∈ calls) ∧
  (∀ i k : nat, (i, k) ∈ calls → (i < length (imgs b))%nat ∧ (k ≤ 1)%nat) ∧
  err = first_error ((λ i, release i 0%nat) <$> seq 0 (length (imgs b))) ∧
  ((∀ i k, (i, k) ∈ calls → release i k = None) → err = None).
Proof.
  unfold Close.
  destruct (Close_loop release (seq 0 (length (imgs b))) None []) as (calls & -> & Hin & Hout).
  simpl. split_and!.
  - intros i Hi. apply Hin, elem_of_seq. lia.
  - intros i k Hik. destruct (Hout i k Hik) as [Hi%elem_of_seq Hk]. split; [lia | done].
  - done.
  - intros Hall. unfold first_error.
    destruct (omap id _) as [|e l] eqn:E; [done|].
    assert (He : e ∈ omap id ((λ i, release i 0%nat) <$> seq 0 (length (imgs b))))
      by (rewrite E; left).
    apply list_elem_of_omap in He as (r & Hr & Hid).
    apply list_elem_of_fmap in Hr as (i & -> & Hi).
    rewrite (Hall i 0%nat) in Hid by (by apply Hin). done.
Qed.

Lemma Close_releases_all_witness :
  Close failing_release one_frame =
    (Some (ErrExternal "slot 1"), [(0, 0); (0, 1); (1, 0); (1, 1); (2, 0)]%nat) ∧
  (∀ i : nat, (i < 3)%nat → (i, 0%nat) ∈ (Close failing_release one_frame).2).
Proof.
  split; [vm_compute; reflexivity|].
  pose proof (Close_releases_all failing_release one_frame) as H.
  destruct (Close failing_release one_frame) as [err calls].
  destruct H as (Hin & _). exact Hin.
Defined.



(** *** The divisor of the rate estimate *)

Lemma Sub_diag t : Sub t t = 0.
Proof.
  unfold Sub, minInt, maxInt. rewrite Z.sub_diag.
  rewrite !bool_decide_eq_false_2 by lia. done.
Qed.

Lemma TimeWindow_one_slot b :
  wf b → Count b = 1 → 2 ≤ writes b → ∃ t, TimeWindow b = Some (t, t).
Proof.
  intros Hwf HC Hw. destruct Hwf as [Ht Hw0 Hr Hn].
  unfold TimeWindow, Count, Go.rem, index, len in *. rewrite HC.
  rewrite !bool_decide_eq_false_2 by lia. simpl.
  rewrite (wrap_id (writes b - 1)) by lia. rewrite wrap_id by lia.
  rewrite !Z.rem_1_r. rewrite !bool_decide_eq_true_2 by lia.
  destruct (lookup_lt_is_Some_2 (times b) (Z.to_nat 0)) as [t ->]; [lia|].
  exists t. done.
Qed.

(** No quotient by zero is zero: it is an infinity or not a number. *)
Lemma div_zero_not_zero (x : float) : (x / 0)%float ≠ 0%float.
Proof.
  intros H. apply (f_equal Prim2SF) in H. rewrite FloatAxioms.div_spec in H.
  destruct (Prim2SF x) as [[]|[]| |[] m e]; vm_compute in H; discriminate H.
Qed.

(** C10: only [writes < 2] guards the division in [FPS].  When the two
    ends of the time window coincide, as they always do in a buffer of
    one slot with two or more writes, [Duration] is 0, its seconds are
    0.0, and [FPS] is the quotient of the frame count by that zero, which
    is not 0: positive infinity for the buffer of one slot. *)
Theorem FPS_zero_divisor b :
  wf b →
  2 ≤ writes b →
  (Count b = 1 → ∃ t, TimeWindow b = Some (t, t)) ∧
  (∀ t, TimeWindow b = Some (t, t) →
     Duration b = Some 0 ∧
     Seconds 0 = 0%float ∧
     FPS b = Some (float64_of_int (writes b `min` Count b) / 0)%float ∧
     FPS b ≠ Some 0%float) ∧
  (Count b = 1 → FPS b = Some infinity).
Proof.
  intros Hwf Hw.
  assert (Hgen : ∀ t, TimeWindow b = Some (t, t) →
     Duration b = Some 0 ∧ Seconds 0 = 0%float ∧
     FPS b = Some (float64_of_int (writes b `min` Count b) / 0)%float ∧
     FPS b ≠ Some 0%float).
  { intros t Ht.
    assert (Hd : Duration b = Some 0).
    { unfold Duration. rewrite Ht. simpl. by rewrite Sub_diag. }
    rewrite (FPS_of_Duration b 0 Hd).
    rewrite bool_decide_eq_false_2 by lia.
    change (Seconds 0) with 0%float.
    split_and!; [done | done | done |].
    intros [= H]. by apply div_zero_not_zero in H. }
  split_and!; [intros HC; by apply TimeWindow_one_slot | done |].
  intros HC. destruct (TimeWindow_one_slot b Hwf HC Hw) as [t Ht].
  destruct (Hgen t Ht) as (_ & _ & -> & _). rewrite HC, Z.min_r by lia.
  by vm_compute.
Qed.

Lemma FPS_zero_divisor_witness :
  wf one_slot ∧ 2 ≤ writes one_slot ∧
  TimeWindow one_slot = Some (30, 30) ∧ FPS one_slot = Some infinity.
Proof.
  assert (Hwf : wf one_slot) by (split; simpl; unfold len; simpl; lia).
  assert (Hw : 2 ≤ writes one_slot) by (simpl; lia).
  split; [exact Hwf|]. split; [exact Hw|]. split; [vm_compute; reflexivity|].
  apply (FPS_zero_divisor one_slot Hwf Hw). reflexivity.
Defined.

(** * Further properties of MatBuffer *)

(** *** What one [Add] changes *)

(** X1: [Add] on a buffer with room for a slot writes slot [writes mod len]
    and nothing else: every other slot keeps its frame and timestamp,
    the capacity stays, the write counter goes up by one, and the buffer
    stays well-formed. *)
Theorem Add_one_slot b img t :
  wf b → 0 < Count b → writes b + 1 + Count b ≤ 2 ^ 63 →
  ∃ b', Add b img t = Some b' ∧
    wf b' ∧ writes b' = writes b + 1 ∧ Count b' = Count b ∧
    imgs b' !! Z.to_nat (writes b `mod` Count b) = Some img ∧
    times b' !! Z.to_nat (writes b `mod` Count b) = Some t ∧
    ∀ j : nat, j ≠ Z.to_nat (writes b `mod` Count b) →
      imgs b' !! j = imgs b !! j ∧ times b' !! j = times b !! j.
Proof.
  intros Hwf HC Hr. unfold Count in *.
  pose proof (Add_wf b img t Hwf HC Hr) as HA. simpl in HA.
  eexists. split; [exact HA|].
  assert (Hwf' := wf_Add b img t _ Hwf Hr HA).
  destruct Hwf as [Ht Hw _ _]. unfold len in *.
  rewrite Z2Nat.inj_mod, Nat2Z.id by lia.
  assert (Hi : (Z.to_nat (writes b) `mod` length (imgs b) < length (imgs b))%nat)
    by (apply Nat.mod_upper_bound; lia).
  split_and!; simpl; try done.
  - by rewrite length_insert.
  - by apply list_lookup_insert_eq.
  - apply list_lookup_insert_eq. by rewrite Ht.
  - intros j Hj. by rewrite !list_lookup_insert_ne.
Qed.

Lemma Add_one_slot_witness :
  wf same_sizes ∧
  ∃ b', Add same_sizes (frame 8) 80 = Some b' ∧
    imgs b' = [frame 7; frame 8; frame 6] ∧ times b' = [70; 80; 60] ∧ writes b' = 8.
Proof.
  assert (Hwf : wf same_sizes) by (split; simpl; unfold len; simpl; lia).
  split; [exact Hwf|].
  destruct (Add_one_slot same_sizes (frame 8) 80 Hwf) as (b' & HA & _).
  - vm_compute. reflexivity.
  - vm_compute. discriminate.
  - exists b'. split; [exact HA|].
    vm_compute in HA. injection HA as <-. split_and!; reflexivity.
Defined.

(** *** A buffer without slots *)

(** X2: When the product of rate and duration truncates to 0 (a camera that
    reports 0 frames per second), [NewMatBuffer] builds a buffer without
    slots: every [Add] panics on the division by [len(b.imgs)], while the
    queries still answer (no frames, a zero time window, rate 0). *)
Theorem zero_capacity duration fps b :
  NewMatBuffer duration fps = Some b → Count b = 0 →
  (∀ img t, Add b img t = None) ∧
  (∀ img t fs, AddAll b ((img, t) :: fs) = None) ∧
  Slice b = Some [] ∧
  TimeWindow b = Some (time.zero, time.zero) ∧
  FPS b = Some 0%float ∧
  ∀ vw filename codec, WriteFile vw b filename codec = Some ([], Some ErrInsufficientFrames).
Proof.
  intros (frames & Hf & Hpos & ->)%NewMatBuffer_Some. unfold Count, len. simpl.
  rewrite length_replicate. intros HC.
  assert (frames = 0) as -> by lia. simpl.
  split_and!; try done.
Qed.

Lemma zero_capacity_witness :
  ∃ b, NewMatBuffer (5 * Second) 0%float = Some b ∧ Count b = 0 ∧
       ∀ img t, Add b img t = None.
Proof.
  eexists. split; [vm_compute; reflexivity|]. split; [reflexivity|].
  apply (zero_capacity (5 * Second) 0%float); vm_compute; reflexivity.
Defined.

(** *** The time window after a run of [Add]s *)

(** X3: After the frames [fs] were added to a new buffer of [C >= 1] slots,
    [TimeWindow] returns the timestamp of the oldest frame still in the
    buffer (the first one, or the [C]-th from the end) and that of the
    last frame added. *)
Theorem TimeWindow_retained duration fps b0 fs :
  NewMatBuffer duration fps = Some b0 →
  0 < Count b0 →
  len fs + Count b0 ≤ 2 ^ 63 →
  fs ≠ [] →
  ∃ b oldest newest,
    AddAll b0 fs = Some b ∧
    fs.*2 !! (length fs - Z.to_nat (Count b0))%nat = Some oldest ∧
    fs.*2 !! (length fs - 1)%nat = Some newest ∧
    TimeWindow b = Some (oldest, newest).
Proof.
  intros (frames & Hf & Hpos & ->)%NewMatBuffer_Some.
  unfold Count, len. simpl. rewrite length_replicate, Nat2Z.id.
  set (C := Z.to_nat frames). intros HC Hn Hne.
  destruct (holds_AddAll C fs) as (b & Hb & Hh); [lia | unfold len; lia |].
  pose proof (TimeWindow_holds C fs b ltac:(lia) ltac:(unfold len; lia) Hh) as HT.
  rewrite bool_decide_eq_false_2 in HT by done.
  assert (Hpos' : (0 < length fs)%nat) by (destruct fs; [done | simpl; lia]).
  destruct (lookup_lt_is_Some_2 fs.*2 (length fs - C)%nat) as [o Ho];
    [rewrite length_fmap; lia|].
  destruct (lookup_lt_is_Some_2 fs.*2 (length fs - 1)%nat) as [n Hn'];
    [rewrite length_fmap; lia|].
  rewrite Ho, Hn' in HT. simpl in HT.
  exists b, o, n. split_and!; done.
Qed.

Lemma TimeWindow_retained_witness :
  ∃ b, AddAll {| imgs := replicate 3 NewMat; times := replicate 3 time.zero; writes := 0 |}
         [(frame 1, 10); (frame 2, 20); (frame 3, 30); (frame 4, 40); (frame 5, 50)]
         = Some b ∧
       TimeWindow b = Some (30, 50).
Proof.
  destruct (TimeWindow_retained (3 * Second) 1%float
    {| imgs := replicate 3 NewMat; times := replicate 3 time.zero; writes := 0 |}
    [(frame 1, 10); (frame 2, 20); (frame 3, 30); (frame 4, 40); (frame 5, 50)])
    as (b & o & n & Hb & Ho & Hn & HT).
  - vm_compute. reflexivity.
  - vm_compute. reflexivity.
  - vm_compute. discriminate.
  - discriminate.
  - exists b. split; [exact Hb|].
    vm_compute in Ho. vm_compute in Hn. injection Ho as <-. injection Hn as <-.
    exact HT.
Defined.

(** *** Frames at a fixed pace *)

Lemma paced_length t0 dt ms : length (paced t0 dt ms) = length ms.
Proof. unfold paced. apply length_imap. Qed.

Lemma paced_time t0 dt ms (k : nat) :
  (k < length ms)%nat → (paced t0 dt ms).*2 !! k = Some (t0 + Z.of_nat k * dt).
Proof.
  intros Hk. destruct (lookup_lt_is_Some_2 ms k Hk) as [m Hm].
  unfold paced. rewrite list_lookup_fmap, list_lookup_imap, Hm. done.
Qed.

Lemma Duration_paced_holds (C : nat) t0 dt ms b :
  (0 < C)%nat → len ms + Z.of_nat C ≤ 2 ^ 63 → ms ≠ [] → 0 ≤ dt →
  len ms * dt < 2 ^ 63 →
  holds C (paced t0 dt ms) b →
  Duration b = Some ((len ms `min` Z.of_nat C - 1) * dt).
Proof.
  intros HC Hn Hne Hdt Hr Hh. unfold len in *.
  assert (Hlen : (0 < length ms)%nat) by (destruct ms; [done | simpl; lia]).
  pose proof (paced_length t0 dt ms) as Hfs.
  pose proof (TimeWindow_holds C _ b HC ltac:(unfold len; rewrite Hfs; lia) Hh) as HT.
  rewrite bool_decide_eq_false_2 in HT
    by (intros E; rewrite E in Hfs; simpl in Hfs; lia).
  rewrite Hfs, !paced_time in HT by lia. simpl in HT.
  unfold Duration. rewrite HT. simpl. f_equal. unfold Sub, minInt, maxInt.
  assert (E : t0 + Z.of_nat (length ms - 1) * dt - (t0 + Z.of_nat (length ms - C) * dt)
              = (Z.of_nat (length ms) `min` Z.of_nat C - 1) * dt) by nia.
  rewrite E. rewrite !bool_decide_eq_false_2 by nia. done.
Qed.

(** X4: After [n >= 1] frames [dt] apart were added to a new buffer of [C]
    slots, [Duration] is [(min(n, C) - 1) * dt]: the [min(n, C)] frames in
    the buffer span one interval less than their number, so for [n >= 2]
    the rate [FPS] reports is [min(n, C)] frames over [min(n, C) - 1]
    intervals. *)
Theorem Duration_paced duration fps b0 t0 dt ms :
  NewMatBuffer duration fps = Some b0 →
  0 < Count b0 →
  len ms + Count b0 ≤ 2 ^ 63 →
  ms ≠ [] →
  0 ≤ dt →
  len ms * dt < 2 ^ 63 →
  ∃ b, AddAll b0 (paced t0 dt ms) = Some b ∧
    Duration b = Some ((len ms `min` Count b0 - 1) * dt) ∧
    (2 ≤ len ms →
       FPS b = Some (float64_of_int (len ms `min` Count b0)
                     / Seconds ((len ms `min` Count b0 - 1) * dt))%float).
Proof.
  intros (frames & Hf & Hpos & ->)%NewMatBuffer_Some.
  set (C := Z.to_nat frames).
  assert (HCnt : Count {| imgs := replicate C NewMat; times := replicate C time.zero;
                          writes := 0 |} = Z.of_nat C).
  { unfold Count, len. simpl. by rewrite length_replicate. }
  rewrite HCnt. intros HC Hn Hne Hdt Hr.
  pose proof (paced_length t0 dt ms) as Hfs.
  destruct (holds_AddAll C (paced t0 dt ms)) as (b & Hb & Hh);
    [lia | unfold len in *; rewrite Hfs; lia |].
  pose proof (Duration_paced_holds C t0 dt ms b ltac:(lia) Hn Hne Hdt Hr Hh) as HD.
  exists b. split_and!; try done.
  intros H2. rewrite (FPS_of_Duration b _ HD).
  destruct Hh as [Hi _ Hw _]. unfold Count, len in *.
  rewrite Hw, Hi, Hfs. rewrite bool_decide_eq_false_2 by lia. done.
Qed.

Lemma Duration_paced_witness :
  ∃ b, AddAll {| imgs := replicate 10 NewMat; times := replicate 10 time.zero; writes := 0 |}
         (paced 0 (100 * Millisecond) (replicate 20 (frame 1))) = Some b ∧
       Duration b = Some (900 * Millisecond).
Proof.
  destruct (Duration_paced (10 * Second) 1%float
    {| imgs := replicate 10 NewMat; times := replicate 10 time.zero; writes := 0 |}
    0 (100 * Millisecond) (replicate 20 (frame 1)))
    as (b & Hb & HD & _).
  - vm_compute. reflexivity.
  - vm_compute. reflexivity.
  - vm_compute. discriminate.
  - discriminate.
  - vm_compute. discriminate.
  - vm_compute. reflexivity.
  - exists b. split; [exact Hb | exact HD].
Defined.

(** *** The size of the snapshot *)

(** X5: The snapshot of a well-formed buffer has [min(writes, len)] frames:
    never more than the capacity, and the number of [Add]s until full. *)
Theorem Slice_length b :
  wf b →
  ∃ snapshot, Slice b = Some snapshot ∧
    len snapshot = writes b `min` Count b ∧ len snapshot ≤ Count b.
Proof.
  intros Hwf. destruct (Slice_wf b Hwf) as (snapshot & HS & Hlen).
  exists snapshot. split_and!; [done | done | lia].
Qed.

Lemma Slice_length_witness :
  wf same_sizes ∧
  ∃ snapshot, Slice same_sizes = Some snapshot ∧ len snapshot = 3.
Proof.
  assert (Hwf : wf same_sizes) by (split; simpl; unfold len; simpl; lia).
  split; [exact Hwf|].
  destruct (Slice_length same_sizes Hwf) as (snapshot & HS & Hlen & _).
  exists snapshot. split; [exact HS | exact Hlen].
Defined.

(** *** Queries do not panic *)

(** X6: On a well-formed buffer no query panics: the time window, the
    duration, the rate, the snapshot and the export all return, whatever
    the video writer does. *)
Theorem queries_return b :
  wf b →
  is_Some (TimeWindow b) ∧ is_Some (Duration b) ∧ is_Some (FPS b) ∧
  is_Some (Slice b) ∧
  ∀ vw filename codec, is_Some (WriteFile vw b filename codec).
Proof.
  intros Hwf. split_and!.
  - by apply TimeWindow_wf.
  - by apply Duration_wf.
  - by apply FPS_wf.
  - destruct (Slice_wf b Hwf) as (snapshot & -> & _). done.
  - intros vw filename codec.
    destruct (Slice_wf b Hwf) as (snapshot & HS & Hlen).
    destruct (FPS_wf b Hwf) as [fps Hfps].
    unfold WriteFile. rewrite HS. generalize (write_frames vw). intros loop.
    simpl. case_bool_decide as H2; [done|].
    destruct snapshot as [|first rest]; [unfold len in H2; simpl in H2; lia|].
    unfold index. simpl. rewrite Hfps. simpl.
    destruct (vw_open vw filename codec fps (Cols first) (Rows first)); [done|].
    destruct (loop _ _ _ _). done.
Qed.

Lemma queries_return_witness :
  wf same_sizes ∧ is_Some (FPS same_sizes) ∧
  is_Some (WriteFile accepting same_sizes "video.mp4" "mp4v").
Proof.
  assert (Hwf : wf same_sizes) by (split; simpl; unfold len; simpl; lia).
  split; [exact Hwf|].
  destruct (queries_return same_sizes Hwf) as (_ & _ & HF & _ & HW).
  split; [exact HF | apply HW].
Defined.

(** *** The calls of an export *)

(** The loop writes a prefix of the frames, in order; it ends without
    error only after writing all of them, all of the given size. *)
Lemma write_frames_shape vw width height imgs : ∀ acc,
  ∃ pre r,
    write_frames vw width height acc imgs = (CallWrite <$> pre, r) ∧
    pre `prefix_of` imgs ∧
    (r = None → pre = imgs ∧ Forall (λ m, Cols m = width ∧ Rows m = height) imgs).
Proof.
  induction imgs as [|m imgs IH]; intros acc; simpl.
  - exists [], None. split_and!; [done | done | done].
  - case_bool_decide as Hdim.
    + exists [], (Some ErrDimensionMismatch). split_and!; [done | apply prefix_nil | done].
    + destruct (vw_write vw acc m) as [e|].
      * exists [m], (Some (ErrWriteFailed e)).
        split_and!; [done | by apply prefix_cons, prefix_nil | done].
      * destruct (IH (acc ++ [m])) as (pre & r & -> & Hp & Hr).
        exists (m :: pre), r. split_and!; [done | by apply prefix_cons |].
        intros Hn. destruct (Hr Hn) as [-> HF]. split; [done|].
        constructor; [|done].
        split.
        -- destruct (decide (Cols m = width)); [done|]. exfalso. apply Hdim. by left.
        -- destruct (decide (Rows m = height)); [done|]. exfalso. apply Hdim. by right.
Qed.

(** The loop on frames of the given size that the writer takes. *)
Lemma write_frames_accepted vw width height imgs : ∀ acc,
  Forall (λ m, Cols m = width ∧ Rows m = height) imgs →
  (∀ pre m, (pre ++ [m]) `prefix_of` imgs → vw_write vw (acc ++ pre) m = None) →
  write_frames vw width height acc imgs = (CallWrite <$> imgs, None).
Proof.
  induction imgs as [|m imgs IH]; intros acc HF Hacc; simpl; [done|].
  apply Forall_cons_1 in HF as [[Hc Hr] HF].
  case_bool_decide as Hdim; [destruct Hdim; done|].
  pose proof (Hacc [] m (prefix_cons _ _ _ (prefix_nil _))) as H0.
  rewrite app_nil_r in H0. rewrite H0.
  rewrite (IH (acc ++ [m]) HF); [done|].
  intros pre m' Hp. rewrite <- app_assoc. simpl.
  apply (Hacc (m :: pre) m'). simpl. by apply prefix_cons.
Qed.

(** The loop up to the first frame the writer refuses. *)
Lemma write_frames_refused vw width height pre m post e : ∀ acc,
  Forall (λ m, Cols m = width ∧ Rows m = height) (pre ++ [m]) →
  (∀ pre' m', (pre' ++ [m']) `prefix_of` pre → vw_write vw (acc ++ pre') m' = None) →
  vw_write vw (acc ++ pre) m = Some e →
  write_frames vw width height acc (pre ++ m :: post)
    = (CallWrite <$> (pre ++ [m]), Some (ErrWriteFailed e)).
Proof.
  induction pre as [|m0 pre IH]; intros acc HF Hacc He; simpl.
  - apply Forall_cons_1 in HF as [[Hc Hr] _].
    case_bool_decide as Hdim; [destruct Hdim; done|].
    rewrite app_nil_r in He. rewrite He. done.
  - simpl in HF. apply Forall_cons_1 in HF as [[Hc Hr] HF].
    case_bool_decide as Hdim; [destruct Hdim; done|].
    pose proof (Hacc [] m0 (prefix_cons _ _ _ (prefix_nil _))) as H0.
    rewrite app_nil_r in H0. rewrite H0.
    rewrite (IH (acc ++ [m0]) HF); [done | |].
    + intros pre' m' Hp. rewrite <- app_assoc. simpl.
      apply (Hacc (m0 :: pre') m'). simpl. by apply prefix_cons.
    + rewrite <- app_assoc. done.
Qed.

(** [WriteFile] up to the writer: the snapshot, its first frame and the
    rate the writer is opened with. *)
Lemma WriteFile_unfold vw b filename codec snapshot first fps :
  Slice b = Some snapshot → 2 ≤ len snapshot → head snapshot = Some first →
  FPS b = Some fps →
  WriteFile vw b filename codec =
    match vw_open vw filename codec fps (Cols first) (Rows first) with
    | Some e => Some ([CallOpen filename codec fps (Cols first) (Rows first)],
                      Some (ErrWriterOpenFailed e))
    | None =>
        let '(calls, r) := write_frames vw (Cols first) (Rows first) [] snapshot in
        Some (CallOpen filename codec fps (Cols first) (Rows first)
                :: calls ++ [CallClose], r)
    end.
Proof.
  intros HS H2 Hh Hfps. unfold WriteFile. rewrite HS.
  generalize (write_frames vw). intros loop. simpl.
  rewrite bool_decide_eq_false_2 by lia.
  destruct snapshot as [|m rest]; [done|]. injection Hh as ->.
  unfold index. simpl. rewrite Hfps. done.
Qed.

(** X7: An export that succeeds: when the frames of the snapshot all have the
    size of the first, the writer opens and takes every frame,
    [WriteFile] returns [nil] after opening the writer at the rate [FPS]
    and the size of the first frame, writing every frame of the snapshot
    in order, and closing the writer. *)
Theorem WriteFile_success vw b filename codec snapshot first fps :
  Slice b = Some snapshot →
  2 ≤ len snapshot →
  head snapshot = Some first →
  FPS b = Some fps →
  Forall (λ m, Cols m = Cols first ∧ Rows m = Rows first) snapshot →
  vw_open vw filename codec fps (Cols first) (Rows first) = None →
  (∀ pre m, (pre ++ [m]) `prefix_of` snapshot → vw_write vw pre m = None) →
  WriteFile vw b filename codec =
    Some (CallOpen filename codec fps (Cols first) (Rows first)
            :: (CallWrite <$> snapshot) ++ [CallClose], None).
Proof.
  intros HS H2 Hh Hfps HF Ho Hw.
  rewrite (WriteFile_unfold vw b filename codec snapshot first fps) by done.
  rewrite Ho. rewrite (write_frames_accepted vw _ _ snapshot [] HF Hw). done.
Qed.

Lemma WriteFile_success_witness :
  ∃ fps, FPS same_sizes = Some fps ∧
    WriteFile accepting same_sizes "video.mp4" "mp4v" =
      Some ([CallOpen "video.mp4" "mp4v" fps 1 1;
             CallWrite (frame 5); CallWrite (frame 6); CallWrite (frame 7);
             CallClose], None).
Proof.
  eexists. split; [vm_compute; reflexivity|].
  apply (WriteFile_success accepting same_sizes "video.mp4" "mp4v"
           [frame 5; frame 6; frame 7] (frame 5)).
  - vm_compute. reflexivity.
  - vm_compute. discriminate.
  - reflexivity.
  - vm_compute. reflexivity.
  - repeat constructor.
  - reflexivity.
  - reflexivity.
Defined.

(** X8: An export that returned [nil] wrote every frame: the buffer held at
    least 2 frames, all of the size of the first, and the calls were the
    opening of the writer, one write per frame of the snapshot in order,
    and the closing of the writer. *)
Theorem WriteFile_nil_complete vw b filename codec calls :
  WriteFile vw b filename codec = Some (calls, None) →
  ∃ snapshot first fps,
    Slice b = Some snapshot ∧ 2 ≤ len snapshot ∧ head snapshot = Some first ∧
    FPS b = Some fps ∧
    Forall (λ m, Cols m = Cols first ∧ Rows m = Rows first) snapshot ∧
    calls = CallOpen filename codec fps (Cols first) (Rows first)
              :: (CallWrite <$> snapshot) ++ [CallClose] ∧
    written calls = snapshot.
Proof.
  intros H.
  destruct (Slice b) as [snapshot|] eqn:HS;
    [|unfold WriteFile in H; rewrite HS in H; done].
  destruct (decide (len snapshot < 2)) as [Hlt|H2].
  { unfold WriteFile in H. rewrite HS in H. simpl in H.
    rewrite bool_decide_eq_true_2 in H by done. done. }
  destruct snapshot as [|first rest]; [unfold len in H2; simpl in H2; lia|].
  destruct (FPS b) as [fps|] eqn:Hfps.
  2:{ unfold WriteFile in H. rewrite HS in H. simpl in H.
      rewrite bool_decide_eq_false_2 in H by done.
      unfold index in H. simpl in H. rewrite Hfps in H. done. }
  rewrite (WriteFile_unfold vw b filename codec (first :: rest) first fps) in H
    by (try done; lia).
  destruct (vw_open vw filename codec fps (Cols first) (Rows first)); [done|].
  destruct (write_frames_shape vw (Cols first) (Rows first) (first :: rest) [])
    as (pre & r & E & _ & Hr).
  rewrite E in H. injection H as <- ->.
  destruct (Hr eq_refl) as [-> HF].
  exists (first :: rest), first, fps.
  split_and!; try done; [lia|]. apply written_session.
Qed.

Lemma WriteFile_nil_complete_witness :
  ∃ calls, WriteFile accepting same_sizes "video.mp4" "mp4v" = Some (calls, None) ∧
           written calls = [frame 5; frame 6; frame 7].
Proof.
  eexists. split; [vm_compute; reflexivity|].
  destruct (WriteFile_nil_complete accepting same_sizes "video.mp4" "mp4v" _ eq_refl)
    as (snapshot & first & fps & HS & _ & _ & _ & _ & _ & Hw).
  vm_compute in HS. injection HS as <-. exact Hw.
Defined.

(** X9: Whatever the video writer does, an export of a well-formed buffer
    with 2 frames or more first opens the writer; when that fails it
    returns the wrapped error without writing or closing; otherwise it
    writes frames of the snapshot in order without leaving one out, and
    closes the writer once, as its last call, error or not. *)
Theorem WriteFile_open_close vw b filename codec :
  wf b →
  2 ≤ writes b `min` Count b →
  ∃ snapshot first fps calls r,
    Slice b = Some snapshot ∧ head snapshot = Some first ∧ FPS b = Some fps ∧
    WriteFile vw b filename codec = Some (calls, r) ∧
    ((∃ e, vw_open vw filename codec fps (Cols first) (Rows first) = Some e ∧
           calls = [CallOpen filename codec fps (Cols first) (Rows first)] ∧
           r = Some (ErrWriterOpenFailed e)) ∨
     (∃ pre, vw_open vw filename codec fps (Cols first) (Rows first) = None ∧
             pre `prefix_of` snapshot ∧
             calls = CallOpen filename codec fps (Cols first) (Rows first)
                       :: (CallWrite <$> pre) ++ [CallClose])).
Proof.
  intros Hwf H2.
  destruct (Slice_wf b Hwf) as (snapshot & HS & Hlen).
  destruct (FPS_wf b Hwf) as [fps Hfps].
  destruct snapshot as [|first rest]; [unfold len in Hlen; simpl in Hlen; lia|].
  rewrite (WriteFile_unfold vw b filename codec (first :: rest) first fps)
    by (try done; lia).
  destruct (write_frames_shape vw (Cols first) (Rows first) (first :: rest) [])
    as (pre & r & E & Hp & _).
  destruct (vw_open vw filename codec fps (Cols first) (Rows first)) as [e|] eqn:Ho.
  - eexists _, first, fps, _, _. split_and!; try done. left. by exists e.
  - rewrite E. eexists _, first, fps, _, _. split_and!; try done. right. by exists pre.
Qed.

Lemma WriteFile_open_close_witness :
  wf same_sizes ∧
  WriteFile closed_writer same_sizes "video.mp4" "mp4v" =
    Some ([CallOpen "video.mp4" "mp4v" 150000000%float 1 1],
          Some (ErrWriterOpenFailed (ErrExternal "no codec"))).
Proof.
  assert (Hwf : wf same_sizes) by (split; simpl; unfold len; simpl; lia).
  split; [exact Hwf|].
  destruct (WriteFile_open_close closed_writer same_sizes "video.mp4" "mp4v" Hwf)
    as (snapshot & first & fps & calls & r & _ & _ & _ & HW & _).
  - vm_compute. discriminate.
  - rewrite HW. vm_compute in HW. symmetry. exact HW.
Defined.

(** X10: When the writer refuses a frame, the export stops there: the frames
    before it and the refused one are the only ones handed to the writer,
    the writer is closed, and the error returned wraps the writer's. *)
Theorem WriteFile_write_failed vw b filename codec pre m post first fps e :
  Slice b = Some (pre ++ m :: post) →
  2 ≤ len (pre ++ m :: post) →
  head (pre ++ m :: post) = Some first →
  FPS b = Some fps →
  Forall (λ m, Cols m = Cols first ∧ Rows m = Rows first) (pre ++ [m]) →
  vw_open vw filename codec fps (Cols first) (Rows first) = None →
  (∀ pre' m', (pre' ++ [m']) `prefix_of` pre → vw_write vw pre' m' = None) →
  vw_write vw pre m = Some e →
  WriteFile vw b filename codec =
    Some (CallOpen filename codec fps (Cols first) (Rows first)
            :: (CallWrite <$> (pre ++ [m])) ++ [CallClose],
          Some (ErrWriteFailed e)).
Proof.
  intros HS H2 Hh Hfps HF Ho Hacc He.
  rewrite (WriteFile_unfold vw b filename codec _ first fps) by done.
  rewrite Ho.
  rewrite (write_frames_refused vw _ _ pre m post e []); done.
Qed.

Lemma WriteFile_write_failed_witness :
  WriteFile (refusing 1) same_sizes "video.mp4" "mp4v" =
    Some ([CallOpen "video.mp4" "mp4v" 150000000%float 1 1;
           CallWrite (frame 5); CallWrite (frame 6); CallClose],
          Some (ErrWriteFailed (ErrExternal "disk full"))).
Proof.
  apply (WriteFile_write_failed (refusing 1) same_sizes "video.mp4" "mp4v"
           [frame 5] (frame 6) [frame 7] (frame 5)).
  - vm_compute. reflexivity.
  - vm_compute. discriminate.
  - reflexivity.
  - vm_compute. reflexivity.
  - repeat constructor.
  - reflexivity.
  - intros pre' m' Hp. apply prefix_length in Hp. rewrite length_app in Hp.
    simpl in Hp. destruct pre' as [|? ?]; [reflexivity | simpl in Hp; lia].
  - reflexivity.
Defined.

(** *** The releases of [Close] *)

Lemma first_error_snoc results r :
  first_error (results ++ [r]) =
    match first_error results with Some e => Some e | None => r end.
Proof.
  unfold first_error. rewrite omap_app. simpl.
  destruct (omap id results) as [|e l]; simpl; [by destruct r | done].
Qed.

Lemma first_error_seq_S (release : nat → nat → option error) (s : nat) :
  first_error ((λ j, release j 0%nat) <$> seq 0 (S s)) =
    match first_error ((λ j, release j 0%nat) <$> seq 0 s) with
    | Some e => Some e
    | None => release s 0%nat
    end.
Proof.
  rewrite seq_S, fmap_app.
  change ((λ j, release j 0%nat) <$> [(0 + s)%nat]) with [release s 0%nat].
  apply first_error_snoc.
Qed.

Lemma Close_loop_trace release (k : nat) : ∀ (s : nat) calls,
  foldl (Close_step release)
    (first_error ((λ j, release j 0%nat) <$> seq 0 s), calls) (seq s k)
  = (first_error ((λ j, release j 0%nat) <$> seq 0 (s + k)),
     calls ++ (seq s k ≫= releases_of release)).
Proof.
  induction k as [|k IH]; intros s calls.
  - simpl. by rewrite Nat.add_0_r, app_nil_r.
  - assert (Hstep : Close_step release
        (first_error ((λ j, release j 0%nat) <$> seq 0 s), calls) s
      = (first_error ((λ j, release j 0%nat) <$> seq 0 (S s)),
         calls ++ releases_of release s)).
    { unfold Close_step, releases_of.
      rewrite first_error_seq_S.
      destruct (first_error ((λ j, release j 0%nat) <$> seq 0 s)) as [e|] eqn:E.
      - by rewrite bool_decide_eq_false_2.
      - by rewrite bool_decide_eq_true_2. }
    change (seq s (S k)) with (s :: seq (S s) k).
    change (foldl ?f ?a (s :: ?l)) with (foldl f (f a s) l).
    rewrite Hstep, IH. replace (S s + k)%nat with (s + S k)%nat by lia.
    f_equal. rewrite <- app_assoc. done.
Qed.

Lemma releases_length release (l : list nat) :
  (length l ≤ length (l ≫= releases_of release) ≤ 2 * length l)%nat.
Proof.
  induction l as [|i l IH]; [simpl; lia|].
  change ((i :: l) ≫= releases_of release)
    with (releases_of release i ++ (l ≫= releases_of release)).
  rewrite length_app. unfold releases_of at 1 3.
  case_bool_decide; simpl length; lia.
Qed.

(** X11: The releases [Close] makes, in order: slot after slot, two releases
    of a slot while no earlier slot failed to release and one release from
    then on; when every first release succeeds, each slot is released
    exactly twice.  No slot is left out and none is released more than
    twice. *)
Theorem Close_trace release b :
  (Close release b).2 = seq 0 (length (imgs b)) ≫= releases_of release ∧
  (length (imgs b) ≤ length (Close release b).2 ≤ 2 * length (imgs b))%nat ∧
  ((∀ i, release i 0%nat = None) →
     (Close release b).2 = seq 0 (length (imgs b)) ≫= λ i, [(i, 0%nat); (i, 1%nat)]).
Proof.
  unfold Close.
  pose proof (Close_loop_trace release (length (imgs b)) 0 []) as H.
  simpl in H. change (first_error []) with (@None error) in H. rewrite H.
  cbn [snd]. split; [done|]. split.
  - pose proof (releases_length release (seq 0 (length (imgs b)))) as Hl.
    rewrite length_seq in Hl. exact Hl.
  - intros Hall.
    assert (Hfe : ∀ i, first_error ((λ j, release j 0%nat) <$> seq 0 i) = None).
    { intros i. induction i as [|i IHi]; [done|].
      rewrite first_error_seq_S, IHi. apply Hall. }
    generalize (seq 0 (length (imgs b))). intros l.
    induction l as [|i l IH]; [done|].
    change ((i :: l) ≫= releases_of release)
      with (releases_of release i ++ (l ≫= releases_of release)).
    rewrite IH. unfold releases_of. rewrite bool_decide_eq_true_2 by apply Hfe. done.
Qed.

Lemma Close_trace_witness :
  (Close failing_release one_frame).2 = [(0, 0); (0, 1); (1, 0); (1, 1); (2, 0)]%nat.
Proof.
  destruct (Close_trace failing_release one_frame) as [-> _].
  vm_compute. reflexivity.
Defined.

(** * Properties of FPSCounter *)

Import counter.

Lemma NewFPSCounter_Some seconds c :
  NewFPSCounter seconds = Some c ↔
  (0 ≤ seconds ∧ seconds * 8 ≤ maxAlloc) ∧
  c = {| FPS := 0%float; ticks := 0;
         frames := replicate (Z.to_nat seconds) 0;
         durations := replicate (Z.to_nat seconds) 0;
         totalFrames := 0; totalDuration := 0 |}.
Proof.
  unfold NewFPSCounter.
  destruct (make 8 seconds 0) as [l|] eqn:E; simpl.
  - apply make_Some in E as [Hlim ->]. split; [by intros [= <-] | by intros [_ ->]].
  - split; [done|]. intros [Hlim _].
    by rewrite (proj2 (make_Some 8 seconds 0 _) (conj Hlim eq_refl)) in E.
Qed.

Example NewFPSCounter_5 : NewFPSCounter 5 = Some counter5.
Proof. reflexivity. Qed.

Example NewFPSCounter_1 : NewFPSCounter 1 = Some counter1.
Proof. reflexivity. Qed.

(** *** One tick, one frame *)

Lemma succ_mod (k N : nat) :
  (0 < N)%nat → Z.to_nat (Z.rem (Z.of_nat k + 1) (Z.of_nat N)) = (S k `mod` N)%nat.
Proof.
  intros HN. rewrite rem_to_nat by lia. rewrite Nat2Z.id. f_equal. lia.
Qed.

(** A tick and a frame on a well-formed counter [c] with [N] buckets at
    tick count [k], in closed form: [i] is the bucket committed (and the
    one [NextFrame] increments), [i'] the bucket evicted. *)
Section tick_facts.
Context (c : FPSCounter) (Hwf : wf c).
Let N : nat := length (frames c).
Let k : nat := Z.to_nat (ticks c).
Let i : nat := (k `mod` N)%nat.
Let i' : nat := (S k `mod` N)%nat.

Lemma tick_idx_bounds : (i < N)%nat ∧ (i' < N)%nat.
Proof.
  destruct Hwf. split; apply Nat.mod_upper_bound; unfold N; lia.
Qed.

Lemma tick_explicit (lt t : Time) :
  ∃ f f' d',
    frames c !! i = Some f ∧ frames c !! i' = Some f' ∧
    <[i := Sub t lt]> (durations c) !! i' = Some d' ∧
    tick_moved c lt t =
      Some {| commit_idx := Z.of_nat i; added_frames := f; added_duration := Sub t lt;
              evict_idx := Z.of_nat i'; removed_frames := f'; removed_duration := d' |} ∧
    tick c lt t =
      Some ({| FPS := (float64_of_int (wrap (wrap (totalFrames c + f) - f'))
                       / Seconds (wrap (wrap (totalDuration c + Sub t lt) - d')))%float;
               ticks := ticks c + 1;
               frames := <[i' := 0]> (frames c);
               durations := <[i' := 0]> (<[i := Sub t lt]> (durations c));
               totalFrames := wrap (wrap (totalFrames c + f) - f');
               totalDuration := wrap (wrap (totalDuration c + Sub t lt) - d') |}, t).
Proof.
  destruct tick_idx_bounds as [Hi Hi']. destruct Hwf as [Hd HN Hk Hr].
  destruct (lookup_lt_is_Some_2 (frames c) i) as [f Hf]; [done|].
  destruct (lookup_lt_is_Some_2 (frames c) i') as [f' Hf']; [done|].
  destruct (lookup_lt_is_Some_2 (<[i := Sub t lt]> (durations c)) i') as [d' Hd'].
  { rewrite length_insert, Hd. done. }
  assert (Hdi : <[i := Sub t lt]> (durations c) !! i = Some (Sub t lt)).
  { apply list_lookup_insert_eq. rewrite Hd. done. }
  assert (E1 : Z.rem (ticks c) (Z.of_nat (length (frames c))) = Z.of_nat i).
  { rewrite <- (Z2Nat.id (Z.rem _ _)) by (apply rem_bounds; lia).
    rewrite rem_to_nat by lia. by rewrite Nat2Z.id. }
  assert (E2 : Z.rem (ticks c + 1) (Z.of_nat (length (frames c))) = Z.of_nat i').
  { rewrite <- (Z2Nat.id (Z.rem _ _)) by (apply rem_bounds; lia).
    replace (ticks c + 1) with (Z.of_nat k + 1) by (unfold k; lia).
    by rewrite succ_mod. }
  exists f, f', d'. split_and!; try done.
  - unfold tick_moved, Go.rem, store, index, len.
    rewrite (wrap_id (ticks c + 1)) by lia.
    rewrite !bool_decide_eq_false_2 by lia; simpl.
    rewrite E1, E2, !Nat2Z.id.
    repeat (rewrite bool_decide_eq_true_2 by (unfold N in *; lia); simpl).
    rewrite Hf; simpl. rewrite Hdi; simpl. rewrite Hf'; simpl. rewrite Hd'; simpl.
    done.
  - unfold tick, Go.rem, store, index, len.
    rewrite (wrap_id (ticks c + 1)) by lia.
    rewrite !bool_decide_eq_false_2 by lia; simpl.
    rewrite E1, E2, !Nat2Z.id.
    repeat (rewrite bool_decide_eq_true_2 by (unfold N in *; lia); simpl).
    rewrite Hf; simpl. rewrite Hdi; simpl. rewrite Hf'; simpl. rewrite Hd'; simpl.
    rewrite bool_decide_eq_true_2 by (rewrite length_insert; unfold N in *; lia).
    done.
Qed.

Lemma NextFrame_explicit :
  ∃ f, frames c !! i = Some f ∧
    NextFrame c =
      Some {| FPS := FPS c; ticks := ticks c; frames := <[i := wrap (f + 1)]> (frames c);
              durations := durations c; totalFrames := totalFrames c;
              totalDuration := totalDuration c |}.
Proof.
  destruct tick_idx_bounds as [Hi _]. destruct Hwf as [Hd HN Hk Hr].
  destruct (lookup_lt_is_Some_2 (frames c) i) as [f Hf]; [done|].
  exists f. split; [done|].
  unfold NextFrame, Go.rem, store, index, len.
  rewrite !bool_decide_eq_false_2 by lia; simpl.
  pose proof (rem_bounds (ticks c) (Z.of_nat (length (frames c))) Hk ltac:(lia)) as B1.
  repeat (rewrite bool_decide_eq_true_2 by lia; simpl).
  rewrite (rem_to_nat (ticks c)) by lia; rewrite Nat2Z.id.
  fold k N i. rewrite Hf. simpl. done.
Qed.

End tick_facts.

(** *** The life of a committed bucket *)

Lemma kept_wf N k f d j g :
  (0 < N)%nat → Z.of_nat (k + 1 + j) + 1 < 2 ^ 63 → kept N k f d j g → wf (shared g).
Proof. intros HN Hr [Ht Hf Hd _ _]. split; rewrite ?Hf, ?Hd, ?Ht; lia. Qed.

Lemma kept_step N k f d j g a :
  (2 ≤ N)%nat → Z.of_nat (k + N) < 2 ^ 63 →
  (j + count_ticks [a] ≤ N - 2)%nat →
  kept N k f d j g →
  ∃ g', step g a = Some g' ∧ kept N k f d (j + count_ticks [a]) g' ∧
    ∀ m, m ∈ run_moved g [a] → evict_idx m ≠ Z.of_nat (k `mod` N).
Proof.
  intros HN Hr Hj Hk.
  assert (Hwf : wf (shared g)) by (eapply kept_wf; [| |done]; lia).
  destruct Hk as [Ht Hf Hd Hc Hdu].
  assert (Hcur : (k `mod` N)%nat ≠ ((k + 1 + j) `mod` N)%nat)
    by (apply mod_apart; lia).
  destruct a as [|[|t]]; simpl in *.
  - destruct (NextFrame_explicit (shared g) Hwf) as (f0 & Hf0 & ->). simpl.
    rewrite Ht, Nat2Z.id, Hf in *.
    eexists. split; [done|]. split.
    + split; simpl; rewrite ?length_insert, ?Nat.add_0_r; try done.
      rewrite list_lookup_insert_ne by done. done.
    + intros m Hm. by apply elem_of_nil in Hm.
  - eexists. split; [done|]. split.
    + rewrite Nat.add_0_r. by split.
    + intros m Hm. by apply elem_of_nil in Hm.
  - destruct (tick_explicit (shared g) Hwf (lastTime g) t)
      as (f0 & f1 & d1 & Hf0 & Hf1 & Hd1 & -> & ->). simpl.
    rewrite Ht, Nat2Z.id, Hf in *.
    assert (Hnext : (k `mod` N)%nat ≠ (S (k + 1 + j) `mod` N)%nat)
      by (apply mod_apart; lia).
    eexists. split; [done|]. split.
    + split; simpl; rewrite ?length_insert; try done.
      * lia.
      * rewrite list_lookup_insert_ne by done. done.
      * rewrite !list_lookup_insert_ne by done. done.
    + intros m Hm. apply list_elem_of_singleton in Hm as ->.
      simpl. intros E. apply Hnext. lia.
Qed.

Lemma run_moved_cons g a acts m :
  m ∈ run_moved g (a :: acts) →
  m ∈ run_moved g [a] ∨ ∃ g', step g a = Some g' ∧ m ∈ run_moved g' acts.
Proof.
  simpl. intros [H|H]%elem_of_app.
  - left. apply elem_of_app. by left.
  - right. destruct (step g a) as [g'|]; [by exists g' | by apply elem_of_nil in H].
Qed.

Lemma count_ticks_cons a acts :
  count_ticks (a :: acts) = (count_ticks [a] + count_ticks acts)%nat.
Proof. destruct a as [|[|t]]; simpl; lia. Qed.

Lemma kept_run N k f d :
  (2 ≤ N)%nat → Z.of_nat (k + N) < 2 ^ 63 →
  ∀ acts j g,
    (j + count_ticks acts ≤ N - 2)%nat →
    kept N k f d j g →
    ∃ g', run g acts = Some g' ∧ kept N k f d (j + count_ticks acts) g' ∧
      ∀ m, m ∈ run_moved g acts → evict_idx m ≠ Z.of_nat (k `mod` N).
Proof.
  intros HN Hr acts. induction acts as [|a acts IH]; intros j g Hj Hk.
  - exists g. simpl. rewrite Nat.add_0_r. split_and!; [done | done |].
    intros m Hm. by apply elem_of_nil in Hm.
  - rewrite count_ticks_cons in Hj |- *.
    destruct (kept_step N k f d j g a HN Hr ltac:(lia) Hk) as (g1 & Hs & Hk1 & Hm1).
    destruct (IH (j + count_ticks [a])%nat g1 ltac:(lia) Hk1) as (g' & Hrun & Hk' & Hm').
    exists g'. split_and!.
    + change (run g (a :: acts)) with (step g a ≫= λ g0, run g0 acts).
      rewrite Hs. done.
    + by rewrite Nat.add_assoc.
    + intros m [H|(g0 & Hg0 & H)]%run_moved_cons; [by apply Hm1|].
      rewrite Hs in Hg0. injection Hg0 as <-. by apply Hm'.
Qed.

(** A tick changes the running totals by what it moved. *)
Lemma tick_totals c lastTime t c' t' m :
  tick c lastTime t = Some (c', t') →
  tick_moved c lastTime t = Some m →
  totalFrames c' = wrap (wrap (totalFrames c + added_frames m) - removed_frames m) ∧
  totalDuration c' =
    wrap (wrap (totalDuration c + added_duration m) - removed_duration m).
Proof.
  unfold tick, tick_moved. intros H1 H2.
  destruct (Go.rem (ticks c) _) as [idx|]; simpl in *; [|done].
  destruct (store (durations c) idx _) as [durations1|]; simpl in *; [|done].
  destruct (index (frames c) idx) as [f|]; simpl in *; [|done].
  destruct (index durations1 idx) as [d|]; simpl in *; [|done].
  destruct (Go.rem (wrap (ticks c + 1)) _) as [idx'|]; simpl in *; [|done].
  destruct (index (frames c) idx') as [f'|]; simpl in *; [|done].
  destruct (index durations1 idx') as [d'|]; simpl in *; [|done].
  destruct (store (frames c) idx' 0) as [frames2|]; simpl in *; [|done].
  destruct (store durations1 idx' 0) as [durations2|]; simpl in *; [|done].
  injection H1 as <- <-. injection H2 as <-. done.
Qed.

(** C2 (the code differs): the bucket a tick commits leaves the running
    totals [N - 1] ticks later, not [N]: [N - 2] ticks pass (with any
    calls of [NextFrame] and [Stop] between them) without evicting it, and
    the tick after them evicts it, taking out the frame count and the
    duration that were put in. *)
Theorem committed_bucket_evicted c lastTime0 t acts t' :
  wf c →
  (2 ≤ length (frames c))%nat →
  ticks c + len (frames c) < 2 ^ 63 →
  count_ticks acts = (length (frames c) - 2)%nat →
  ∃ m g1 g2 m',
    tick_moved c lastTime0 t = Some m ∧
    step (mkGoroutine c lastTime0) (ActRecv (RecvTick t)) = Some g1 ∧
    run g1 acts = Some g2 ∧
    (∀ m0, m0 ∈ run_moved g1 acts → evict_idx m0 ≠ commit_idx m) ∧
    evict_idx m ≠ commit_idx m ∧
    tick_moved (shared g2) (lastTime g2) t' = Some m' ∧
    evict_idx m' = commit_idx m ∧
    removed_frames m' = added_frames m ∧
    removed_duration m' = added_duration m.
Proof.
  intros Hwf HN Hr Hn. set (N := length (frames c)) in *.
  set (k := Z.to_nat (ticks c)).
  assert (Hk : ticks c = Z.of_nat k) by (destruct Hwf; unfold k; lia).
  unfold len in Hr. fold N in Hr.
  destruct (tick_explicit c Hwf lastTime0 t) as (f & f' & d' & Hf & Hf' & Hd' & Hm & Ht).
  fold k N in Hf, Hf', Hd', Hm, Ht.
  assert (Hii' : (k `mod` N)%nat ≠ (S k `mod` N)%nat) by (apply mod_apart; lia).
  assert (Hk0 : kept N k f (Sub t lastTime0) 0 {|
    shared := {| FPS := (float64_of_int (wrap (wrap (totalFrames c + f) - f'))
                       / Seconds (wrap (wrap (totalDuration c + Sub t lastTime0) - d')))%float;
               ticks := ticks c + 1;
               frames := <[(S k `mod` N)%nat := 0]> (frames c);
               durations := <[(S k `mod` N)%nat := 0]>
                              (<[(k `mod` N)%nat := Sub t lastTime0]> (durations c));
               totalFrames := wrap (wrap (totalFrames c + f) - f');
               totalDuration := wrap (wrap (totalDuration c + Sub t lastTime0) - d') |};
    lastTime := t |}).
  { destruct Hwf as [Hd _ _ _].
    split; simpl; rewrite ?length_insert; try done; try lia.
    - rewrite list_lookup_insert_ne by done. done.
    - rewrite list_lookup_insert_ne by done.
      apply list_lookup_insert_eq. rewrite Hd. apply Nat.mod_upper_bound. lia. }
  destruct (kept_run N k f (Sub t lastTime0) HN ltac:(lia) acts 0%nat _ ltac:(lia) Hk0)
    as (g2 & Hrun & Hk2 & Hmoved).
  simpl in Hk2. rewrite Hn in Hk2.
  assert (Hwf2 : wf (shared g2)) by (eapply kept_wf; [| |done]; lia).
  destruct (tick_explicit (shared g2) Hwf2 (lastTime g2) t')
    as (f2 & f2' & d2' & Hf2 & Hf2' & Hd2' & Hm2 & _).
  destruct Hk2 as [Ht2 Hlf2 Hld2 Hc2 Hdu2].
  rewrite Ht2, Nat2Z.id, Hlf2 in *.
  assert (Hlast : (S (k + 1 + (N - 2)) `mod` N)%nat = (k `mod` N)%nat).
  { replace (S (k + 1 + (N - 2))) with (k + 1 * N)%nat by lia.
    apply Nat.Div0.mod_add. }
  assert (Hprev : ((k + 1 + (N - 2)) `mod` N)%nat ≠ (k `mod` N)%nat).
  { intros E. eapply (mod_apart N k (k + 1 + (N - 2))); [lia | lia | done]. }
  rewrite Hlast in *. rewrite list_lookup_insert_ne in Hd2' by done.
  eexists _, _, g2, _. split_and!.
  - exact Hm.
  - simpl. rewrite Ht. simpl. done.
  - exact Hrun.
  - simpl. exact Hmoved.
  - simpl. intros E. apply Hii'. lia.
  - exact Hm2.
  - done.
  - simpl. congruence.
  - simpl. congruence.
Qed.

Lemma committed_bucket_evicted_witness :
  wf counter5 ∧
  ∃ m g1 g2 m',
    tick_moved counter5 0 (2 * Second) = Some m ∧
    step (mkGoroutine counter5 0) (ActRecv (second 2)) = Some g1 ∧
    run g1 [ActFrame; ActRecv (second 3); ActRecv (second 4); ActFrame;
            ActRecv (second 5)] = Some g2 ∧
    (∀ m0, m0 ∈ run_moved g1 [ActFrame; ActRecv (second 3); ActRecv (second 4); ActFrame;
                              ActRecv (second 5)] → evict_idx m0 ≠ commit_idx m) ∧
    evict_idx m ≠ commit_idx m ∧
    tick_moved (shared g2) (lastTime g2) (6 * Second) = Some m' ∧
    evict_idx m' = commit_idx m ∧
    removed_frames m' = added_frames m ∧
    removed_duration m' = added_duration m.
Proof.
  assert (Hwf : wf counter5) by (split; simpl; lia).
  split; [exact Hwf|].
  apply (committed_bucket_evicted counter5 0 (2 * Second)
    [ActFrame; ActRecv (second 3); ActRecv (second 4); ActFrame; ActRecv (second 5)]
    (6 * Second) Hwf).
  - simpl. lia.
  - vm_compute. reflexivity.
  - reflexivity.
Defined.

(** With one bucket a tick evicts what it has just committed: the totals
    stay 0 and the rate is 0/0, whatever the number of frames. *)
Example one_bucket_no_rate :
  ∃ g, run (runTicker counter1 0 (1 * Second))
         [ActFrame; ActFrame; ActFrame; ActRecv (second 2);
          ActFrame; ActFrame; ActRecv (second 3)] = Some g ∧
       totalFrames (shared g) = 0 ∧ totalDuration (shared g) = 0 ∧
       FPS (shared g) = nan.
Proof. eexists. split; [vm_compute; reflexivity|]. split_and!; reflexivity. Qed.

(** *** Stop *)

(** C1 (the code differs): receiving the value [Stop] sends does not end
    the loop of [runTicker]: the rest of a run is the same with and
    without it, and the ticks after it go on changing the buckets, the
    totals and the rate.  Here [Stop] returns after the tick of second 2,
    and the tick of second 3 moves the rate from 1.5 to 1. *)
Theorem ticking_continues_after_Stop :
  (∀ g acts, run g (ActRecv RecvDone :: acts) = run g acts) ∧
  ∃ g g',
    run (runTicker counter5 0 (1 * Second))
      [ActFrame; ActFrame; ActFrame; ActRecv (second 2); ActRecv RecvDone] = Some g ∧
    run g [ActRecv (second 3)] = Some g' ∧
    ticks (shared g) = 1 ∧ ticks (shared g') = 2 ∧
    durations (shared g) = [2 * Second; 0; 0; 0; 0] ∧
    durations (shared g') = [2 * Second; 1 * Second; 0; 0; 0] ∧
    totalDuration (shared g) = 2 * Second ∧ totalDuration (shared g') = 3 * Second ∧
    FPS (shared g) = 1.5%float ∧ FPS (shared g') = 1%float.
Proof.
  split; [done|].
  eexists _, _. split; [vm_compute; reflexivity|].
  split; [vm_compute; reflexivity|].
  simpl. split_and!; vm_compute; reflexivity.
Qed.

(** *** NextFrame against the tick *)

(** The three accesses of [NextFrame] with nothing in between are
    [NextFrame]. *)
Lemma NextFrame_steps c :
  ('(p1, c1) ← NextFrame_step Idle c;
   '(p2, c2) ← NextFrame_step p1 c1;
   NextFrame_step p2 c2)
  = c' ← NextFrame c; Some (Idle, c').
Proof.
  unfold NextFrame, NextFrame_step.
  destruct (Go.rem (ticks c) (len (frames c))) as [idx|]; simpl; [|done].
  destruct (index (frames c) idx) as [v|]; simpl; [|done].
  destruct (store (frames c) idx (wrap (v + 1))) as [frames'|]; simpl; done.
Qed.

Lemma wrap_add_l a b : wrap (wrap a + b) = wrap (a + b).
Proof.
  unfold wrap. f_equal.
  replace ((a + 2 ^ 63) `mod` 2 ^ 64 - 2 ^ 63 + b + 2 ^ 63)
    with ((a + 2 ^ 63) `mod` 2 ^ 64 + b) by lia.
  rewrite Zplus_mod_idemp_l. f_equal. lia.
Qed.

Lemma wrap_sub_l a b : wrap (wrap a - b) = wrap (a - b).
Proof. rewrite <- !Z.add_opp_r. apply wrap_add_l. Qed.

Lemma sum_insert (l : list Z) (i : nat) (x v : Z) :
  l !! i = Some v → foldr Z.add 0 (<[i := x]> l) = foldr Z.add 0 l - v + x.
Proof.
  revert i. induction l as [|y l IH]; intros [|i] H; simpl in *; try done.
  - injection H as ->. lia.
  - rewrite (IH i H). lia.
Qed.

Lemma current_bucket c :
  wf c →
  (idx ← Go.rem (ticks c) (len (frames c)); index (frames c) idx)
  = frames c !! (Z.to_nat (ticks c) `mod` length (frames c))%nat.
Proof.
  intros [Hd HN Hk Hr]. unfold Go.rem, index, len.
  rewrite bool_decide_eq_false_2 by lia. simpl.
  pose proof (rem_bounds (ticks c) (Z.of_nat (length (frames c))) Hk ltac:(lia)).
  rewrite bool_decide_eq_true_2 by lia.
  rewrite rem_to_nat by lia. by rewrite Nat2Z.id.
Qed.

(** With [NextFrame] and the tick atomic, frames are conserved. *)
Lemma conserved_step g a g' :
  wf (shared g) → ticks (shared g) + 2 < 2 ^ 63 →
  conserved (shared g) → step g a = Some g' →
  wf (shared g') ∧ conserved (shared g').
Proof.
  intros Hwf Hr Hc Hs. unfold conserved, committed_frames in *.
  rewrite current_bucket in Hc by done.
  destruct a as [|[|t]]; simpl in Hs.
  - destruct (NextFrame_explicit (shared g) Hwf) as (f & Hf & E).
    rewrite E in Hs. simpl in Hs. injection Hs as <-.
    assert (Hwf' : wf {| FPS := FPS (shared g); ticks := ticks (shared g);
      frames := <[(Z.to_nat (ticks (shared g)) `mod` length (frames (shared g)))%nat
                  := wrap (f + 1)]> (frames (shared g));
      durations := durations (shared g); totalFrames := totalFrames (shared g);
      totalDuration := totalDuration (shared g) |}).
    { destruct Hwf. split; simpl; rewrite ?length_insert; done. }
    split; [done|]. rewrite current_bucket by done. simpl.
    rewrite length_insert, list_lookup_insert_eq
      by (apply Nat.mod_upper_bound; destruct Hwf; lia).
    rewrite (sum_insert _ _ _ f) by done. rewrite Hf in Hc. simpl in *.
    rewrite Hc. f_equal. lia.
  - injection Hs as <-. split; [done|]. by rewrite current_bucket.
  - destruct (tick_explicit (shared g) Hwf (lastTime g) t)
      as (f & f' & d' & Hf & Hf' & Hd' & _ & E).
    rewrite E in Hs. simpl in Hs. injection Hs as <-.
    match goal with |- wf ?c ∧ _ => assert (Hwf' : wf c) end.
    { destruct Hwf. split; simpl; rewrite ?length_insert; lia. }
    split; [done|]. rewrite current_bucket by done. simpl.
    rewrite length_insert.
    replace (Z.to_nat (ticks (shared g) + 1)) with (S (Z.to_nat (ticks (shared g))))
      by (destruct Hwf; lia).
    rewrite list_lookup_insert_eq by (apply Nat.mod_upper_bound; destruct Hwf; lia).
    rewrite (sum_insert _ _ _ f') by done. rewrite Hf in Hc. simpl in *.
    rewrite Hc, wrap_add_l, wrap_sub_l. f_equal. lia.
Qed.

Lemma conserved_run acts : ∀ g g',
  wf (shared g) → ticks (shared g) + Z.of_nat (length acts) + 1 < 2 ^ 63 →
  conserved (shared g) → run g acts = Some g' →
  conserved (shared g').
Proof.
  induction acts as [|a acts IH]; intros g g' Hwf Hr Hc Hrun; simpl in *.
  - by injection Hrun as <-.
  - destruct (step g a) as [g1|] eqn:Hs; simpl in Hrun; [|done].
    destruct (conserved_step g a g1 Hwf ltac:(lia) Hc Hs) as [Hwf1 Hc1].
    apply (IH g1 g'); try done.
    assert (ticks (shared g1) ≤ ticks (shared g) + 1); [|lia].
    destruct a as [|[|t]]; simpl in Hs.
    + destruct (NextFrame_explicit (shared g) Hwf) as (f & _ & E).
      rewrite E in Hs. simpl in Hs. injection Hs as <-. simpl. lia.
    + injection Hs as <-. lia.
    + destruct (tick_explicit (shared g) Hwf (lastTime g) t)
        as (f & f' & d' & _ & _ & _ & _ & E).
      rewrite E in Hs. simpl in Hs. injection Hs as <-. simpl. lia.
Qed.

(** C9 (the code differs): [NextFrame] and the tick are not synchronized.
    When a tick runs between the load and the store of one [NextFrame],
    the frame lands in a bucket that was committed without it: after four
    ticks the bucket holds 1 frame and the running total is 0, and the
    fifth tick takes out the frame that was never put in, leaving a total
    of -1 and a rate of -0.25. *)
Theorem NextFrame_not_synchronized :
  ∃ m m',
    race_run {| prod := Idle; gor := runTicker counter5 0 (1 * Second) |}
      [Producer; Producer; Ticker (second 2); Producer;
       Ticker (second 3); Ticker (second 4); Ticker (second 5)] = Some m ∧
    prod m = Idle ∧
    frames (shared (gor m)) = [1; 0; 0; 0; 0] ∧
    totalFrames (shared (gor m)) = 0 ∧
    ¬ conserved (shared (gor m)) ∧
    race_run m [Ticker (second 6)] = Some m' ∧
    frames (shared (gor m')) = [0; 0; 0; 0; 0] ∧
    totalFrames (shared (gor m')) = -1 ∧
    FPS (shared (gor m')) = (-0.25)%float.
Proof.
  eexists _, _. split; [vm_compute; reflexivity|].
  split; [reflexivity|]. split; [reflexivity|]. split; [reflexivity|].
  split; [vm_compute; discriminate|].
  split; [vm_compute; reflexivity|].
  split_and!; vm_compute; reflexivity.
Qed.

(** * Further properties of FPSCounter *)

(** *** Construction *)

(** X12: [NewFPSCounter] panics on a negative number of seconds and on one
    beyond the limit of [make].  When it returns, the counter has that
    many buckets of frames and of durations: with 0 seconds it has none,
    and [NextFrame] and the tick panic on it (a division by zero); with 1
    second or more neither panics on the new counter. *)
Theorem NewFPSCounter_edges seconds :
  (seconds < 0 ∨ maxAlloc < seconds * 8 → NewFPSCounter seconds = None) ∧
  ∀ c, NewFPSCounter seconds = Some c →
    0 ≤ seconds ∧
    len (frames c) = seconds ∧ len (durations c) = seconds ∧
    (seconds = 0 → NextFrame c = None ∧ ∀ lastTime0 t, tick c lastTime0 t = None) ∧
    (0 < seconds → wf c ∧ is_Some (NextFrame c) ∧ ∀ lastTime0 t, is_Some (tick c lastTime0 t)).
Proof.
  split.
  - intros Hout. destruct (NewFPSCounter seconds) as [c|] eqn:E; [|done].
    apply NewFPSCounter_Some in E as [Hlim _]. lia.
  - intros c [[Hpos Hlim] ->]%NewFPSCounter_Some. simpl.
    unfold len. rewrite !length_replicate, Z2Nat.id by lia.
    split_and!; try done.
    + intros ->. done.
    + intros Hpos'.
      match goal with |- wf ?c ∧ _ => assert (Hwf : wf c) end.
      { split; simpl; rewrite ?length_replicate; lia. }
      split_and!; [done | |].
      * destruct (NextFrame_explicit _ Hwf) as (f & _ & ->). done.
      * intros lt t.
        destruct (tick_explicit _ Hwf lt t) as (f & f' & d' & _ & _ & _ & _ & ->). done.
Qed.

Lemma NewFPSCounter_edges_witness :
  NewFPSCounter (-1) = None ∧
  NewFPSCounter (2 ^ 62) = None ∧
  ∃ c, NewFPSCounter 0 = Some c ∧ NextFrame c = None ∧
       tick c 0 (2 * Second) = None.
Proof.
  split; [apply (NewFPSCounter_edges (-1)); left; reflexivity|].
  split; [apply (NewFPSCounter_edges (2 ^ 62)); right; reflexivity|].
  eexists. split; [reflexivity|].
  destruct (NewFPSCounter_edges 0) as [_ H].
  destruct (H _ eq_refl) as (_ & _ & _ & H0 & _).
  destruct (H0 eq_refl) as [HN HT]. split; [exact HN | apply HT].
Defined.

(** *** Frames between two ticks *)

(** [k] calls of [NextFrame] with no tick between them add [k] to the
    bucket being filled and change nothing else. *)
Lemma frames_run (k : nat) : ∀ g f,
  wf (shared g) →
  frames (shared g) !! (Z.to_nat (ticks (shared g)) `mod` length (frames (shared g)))%nat
    = Some f →
  - 2 ^ 63 ≤ f → f + Z.of_nat k < 2 ^ 63 →
  run g (replicate k ActFrame) =
    Some {| shared :=
              {| FPS := FPS (shared g); ticks := ticks (shared g);
                 frames := <[(Z.to_nat (ticks (shared g))
                              `mod` length (frames (shared g)))%nat := f + Z.of_nat k]>
                             (frames (shared g));
                 durations := durations (shared g);
                 totalFrames := totalFrames (shared g);
                 totalDuration := totalDuration (shared g) |};
            lastTime := lastTime g |}.
Proof.
  induction k as [|k IH]; intros [c lt] f Hwf Hf Hlo Hhi;
    [|rewrite Nat2Z.inj_succ in *]; cbn [shared lastTime replicate run] in *.
  - change (Z.of_nat 0) with 0. rewrite Z.add_0_r, list_insert_id by done. by destruct c.
  - unfold step at 1. cbn [shared lastTime].
    destruct (NextFrame_explicit c Hwf) as (f0 & Hf0 & ->). simpl.
    rewrite Hf in Hf0. injection Hf0 as <-.
    rewrite wrap_id by lia.
    assert (Hi : (Z.to_nat (ticks c) `mod` length (frames c) < length (frames c))%nat).
    { destruct Hwf. apply Nat.mod_upper_bound. lia. }
    rewrite (IH _ (f + 1)); simpl; rewrite ?length_insert.
    + rewrite list_insert_insert_eq. do 3 f_equal.
      replace (f + Z.succ (Z.of_nat k)) with (f + 1 + Z.of_nat k) by lia. done.
    + destruct Hwf. split; simpl; rewrite ?length_insert; done.
    + by apply list_lookup_insert_eq.
    + lia.
    + lia.
Qed.

(** X13: [k] calls of [NextFrame] with no tick between them add [k] to the
    bucket being filled and leave the tick count, both running totals,
    the durations and [FPS] as they were.  The tick that follows does not
    panic: it adds the [f + k] frames of that bucket and the time since
    the tick before to the running totals, takes the next bucket (with
    the [f'] frames and the duration [d'] it holds) out of them, and
    counts one more tick.  With two buckets or more [f'] is what the next
    bucket held before the frames; with one bucket the frames are taken
    out as they are added. *)
Theorem frames_between_ticks g (k : nat) f t :
  let N := length (frames (shared g)) in
  let i := (Z.to_nat (ticks (shared g)) `mod` N)%nat in
  let i' := (S (Z.to_nat (ticks (shared g))) `mod` N)%nat in
  wf (shared g) →
  frames (shared g) !! i = Some f →
  - 2 ^ 63 ≤ f → f + Z.of_nat k < 2 ^ 63 →
  ∃ g1 g2 f' d',
    run g (replicate k ActFrame) = Some g1 ∧
    frames (shared g1) = <[i := f + Z.of_nat k]> (frames (shared g)) ∧
    ticks (shared g1) = ticks (shared g) ∧
    totalFrames (shared g1) = totalFrames (shared g) ∧
    totalDuration (shared g1) = totalDuration (shared g) ∧
    durations (shared g1) = durations (shared g) ∧
    FPS (shared g1) = FPS (shared g) ∧
    lastTime g1 = lastTime g ∧
    frames (shared g1) !! i' = Some f' ∧
    <[i := Sub t (lastTime g)]> (durations (shared g)) !! i' = Some d' ∧
    step g1 (ActRecv (RecvTick t)) = Some g2 ∧
    ticks (shared g2) = ticks (shared g) + 1 ∧
    totalFrames (shared g2)
      = wrap (wrap (totalFrames (shared g) + (f + Z.of_nat k)) - f') ∧
    totalDuration (shared g2)
      = wrap (wrap (totalDuration (shared g) + Sub t (lastTime g)) - d') ∧
    FPS (shared g2)
      = (float64_of_int (totalFrames (shared g2))
         / Seconds (totalDuration (shared g2)))%float ∧
    lastTime g2 = t ∧
    ((1 < N)%nat → frames (shared g) !! i' = Some f') ∧
    (N = 1%nat → f' = f + Z.of_nat k).
Proof.
  intros N i i' Hwf Hf Hlo Hhi. rewrite (frames_run k g f) by done.
  fold N i.
  assert (HN : (0 < N)%nat) by (destruct Hwf; done).
  assert (Hi : (i < N)%nat) by (apply Nat.mod_upper_bound; lia).
  match goal with |- ∃ g1 g2 f' d', Some ?g0 = _ ∧ _ =>
    assert (Hwf' : wf (shared g0))
      by (destruct Hwf; split; simpl; rewrite ?length_insert; done)
  end.
  simpl in Hwf'.
  destruct (tick_explicit _ Hwf' (lastTime g) t)
    as (f1 & f1' & d1' & Hf1 & Hf1' & Hd1' & _ & Ht).
  simpl in Hf1, Hf1', Hd1', Ht. rewrite length_insert in Hf1, Hf1', Hd1', Ht.
  fold N i i' in Hf1, Hf1', Hd1', Ht.
  rewrite list_lookup_insert_eq in Hf1 by done. injection Hf1 as <-.
  eexists _, _, f1', d1'. split; [reflexivity|].
  cbn [step select shared lastTime]. rewrite Ht.
  cbn [mbind option_bind shared lastTime FPS ticks frames durations
       totalFrames totalDuration].
  split_and!; try done.
  - intros HN2. rewrite list_lookup_insert_ne in Hf1'; [done|].
    unfold i, i'. apply mod_apart; lia.
  - intros HN1. unfold i, i' in *. rewrite HN1, !Nat.mod_1_r in *.
    rewrite list_lookup_insert_eq in Hf1' by lia. by injection Hf1' as <-.
Qed.

Lemma frames_between_ticks_witness :
  wf counter5 ∧
  ∃ g1 g2,
    run (runTicker counter5 0 (1 * Second)) (replicate 30 ActFrame) = Some g1 ∧
    step g1 (ActRecv (RecvTick (2 * Second))) = Some g2 ∧
    ticks (shared g2) = 1 ∧
    totalFrames (shared g2) = 30 ∧
    totalDuration (shared g2) = 2 * Second ∧
    FPS (shared g2) = 15%float.
Proof.
  assert (Hwf : wf counter5) by (split; simpl; lia).
  split; [exact Hwf|].
  destruct (frames_between_ticks (runTicker counter5 0 (1 * Second)) 30 0 (2 * Second))
    as (g1 & g2 & f' & d' & Hr & _ & _ & _ & _ & _ & _ & _ & _ & Hd' & Hs & Hk & Hf
        & Hd & HF & _ & Hf' & _).
  - exact Hwf.
  - reflexivity.
  - vm_compute. discriminate.
  - vm_compute. reflexivity.
  - specialize (Hf' ltac:(simpl; lia)). injection Hf' as <-. injection Hd' as <-.
    exists g1, g2. split; [exact Hr|]. split; [exact Hs|].
    split; [exact Hk|]. split; [exact Hf|]. split; [exact Hd|].
    rewrite HF, Hf, Hd. vm_compute. reflexivity.
Defined.

(** *** What the running totals hold *)

Lemma current_duration c :
  wf c →
  (idx ← Go.rem (ticks c) (len (frames c)); index (durations c) idx)
  = durations c !! (Z.to_nat (ticks c) `mod` length (frames c))%nat.
Proof.
  intros [Hd HN Hk Hr]. unfold Go.rem, index, len.
  rewrite bool_decide_eq_false_2 by lia. simpl.
  pose proof (rem_bounds (ticks c) (Z.of_nat (length (frames c))) Hk ltac:(lia)).
  rewrite bool_decide_eq_true_2 by lia.
  rewrite rem_to_nat by lia. by rewrite Nat2Z.id.
Qed.

Lemma timed_step g a g' :
  wf (shared g) → ticks (shared g) + 2 < 2 ^ 63 →
  timed (shared g) → step g a = Some g' → timed (shared g').
Proof.
  intros Hwf Hr [Hsum Hcur] Hs. rewrite current_duration in Hcur by done.
  destruct a as [|[|t]]; simpl in Hs.
  - destruct (NextFrame_explicit (shared g) Hwf) as (f & Hf & E).
    rewrite E in Hs. simpl in Hs. injection Hs as <-.
    split; simpl; [done|].
    unfold Go.rem, index, len in *. rewrite length_insert.
    destruct Hwf as [Hd HN Hk _].
    rewrite bool_decide_eq_false_2 by lia. simpl.
    pose proof (rem_bounds (ticks (shared g)) (Z.of_nat (length (frames (shared g)))) Hk
                  ltac:(lia)).
    rewrite bool_decide_eq_true_2 by lia.
    rewrite rem_to_nat by lia. by rewrite Nat2Z.id.
  - injection Hs as <-. split; [done|]. by rewrite current_duration.
  - destruct (tick_explicit (shared g) Hwf (lastTime g) t)
      as (f & f' & d' & Hf & Hf' & Hd' & _ & E).
    rewrite E in Hs. simpl in Hs. injection Hs as <-.
    match goal with |- timed (shared ?g0) => assert (Hwf' : wf (shared g0)) end.
    { destruct Hwf. split; simpl; rewrite ?length_insert; lia. }
    split; [|rewrite current_duration by done]; simpl.
    + rewrite (sum_insert _ _ _ d') by done.
      rewrite (sum_insert _ _ _ 0) by done.
      rewrite Hsum, wrap_add_l, wrap_sub_l. f_equal. lia.
    + rewrite length_insert.
      replace (Z.to_nat (ticks (shared g) + 1)) with (S (Z.to_nat (ticks (shared g))))
        by (destruct Hwf; lia).
      apply list_lookup_insert_eq. rewrite length_insert.
      destruct Hwf as [Hd HN _ _]. rewrite Hd. apply Nat.mod_upper_bound. lia.
Qed.

Lemma step_returns g a :
  wf (shared g) →
  ∃ g', step g a = Some g' ∧ ticks (shared g') ≤ ticks (shared g) + 1.
Proof.
  intros Hwf. destruct a as [|[|t]]; simpl.
  - destruct (NextFrame_explicit (shared g) Hwf) as (f & _ & ->). simpl.
    eexists. split; [done|]. simpl. lia.
  - exists g. split; [done | lia].
  - destruct (tick_explicit (shared g) Hwf (lastTime g) t)
      as (f & f' & d' & _ & _ & _ & _ & ->). simpl.
    eexists. split; [done|]. simpl. lia.
Qed.

(** With [NextFrame] and the tick atomic a run does not panic and keeps
    the two totals in step with the buckets. *)
Lemma sound_run acts : ∀ g,
  wf (shared g) → ticks (shared g) + Z.of_nat (length acts) + 1 < 2 ^ 63 →
  conserved (shared g) → timed (shared g) →
  ∃ g', run g acts = Some g' ∧ wf (shared g') ∧
        conserved (shared g') ∧ timed (shared g').
Proof.
  induction acts as [|a acts IH]; intros g Hwf Hr Hc Ht; simpl in Hr.
  - exists g. done.
  - destruct (step_returns g a Hwf) as (g1 & Hs & Hk).
    destruct (conserved_step g a g1 Hwf ltac:(lia) Hc Hs) as [Hwf1 Hc1].
    pose proof (timed_step g a g1 Hwf ltac:(lia) Ht Hs) as Ht1.
    destruct (IH g1 Hwf1 ltac:(lia) Hc1 Ht1) as (g' & Hrun & H').
    exists g'. split; [|done]. simpl. rewrite Hs. done.
Qed.

Lemma NewFPSCounter_sound seconds c :
  NewFPSCounter seconds = Some c → 0 < seconds →
  wf c ∧ conserved c ∧ timed c.
Proof.
  intros [_ ->]%NewFPSCounter_Some Hpos.
  match goal with |- wf ?c ∧ _ => assert (Hwf : wf c) end.
  { split; simpl; rewrite ?length_replicate; lia. }
  assert (Hsum : ∀ n : nat, foldr Z.add 0 (replicate n 0) = 0).
  { intros n. induction n as [|n IHn]; simpl; [done | by rewrite IHn]. }
  split; [done|]. split.
  - unfold conserved, committed_frames. rewrite current_bucket by done. simpl.
    rewrite Hsum, length_replicate.
    rewrite lookup_replicate_2 by (apply Nat.mod_upper_bound; lia). done.
  - split; [simpl; by rewrite Hsum|]. rewrite current_duration by done. simpl.
    rewrite length_replicate.
    apply lookup_replicate_2. apply Nat.mod_upper_bound. lia.
Qed.

(** X14: From [NewFPSCounter] on, as long as [NextFrame] and the ticks do not
    overlap, no step panics and no frame is lost or counted twice: the
    running total of frames is the number of frames in the committed
    buckets, whatever the order of frames, ticks and [Stop]s. *)
Theorem frames_conserved seconds c now first acts :
  NewFPSCounter seconds = Some c →
  0 < seconds →
  len acts + 1 < 2 ^ 63 →
  ∃ g, run (runTicker c now first) acts = Some g ∧ conserved (shared g).
Proof.
  intros Hnew Hpos Hlen.
  destruct (NewFPSCounter_sound seconds c Hnew Hpos) as (Hwf & Hc & Ht).
  destruct (sound_run acts (runTicker c now first)) as (g & Hrun & _ & Hc' & _);
    try done.
  - replace (ticks (shared (runTicker c now first))) with 0; [unfold len in Hlen; lia|].
    by apply NewFPSCounter_Some in Hnew as [_ ->].
  - by exists g.
Qed.

Lemma frames_conserved_witness :
  ∃ g, run (runTicker counter5 0 (1 * Second))
         [ActFrame; ActFrame; ActRecv (second 2); ActFrame; ActRecv RecvDone;
          ActRecv (second 3)] = Some g ∧
       conserved (shared g).
Proof.
  apply (frames_conserved 5 counter5 0 (1 * Second)).
  - reflexivity.
  - reflexivity.
  - vm_compute. reflexivity.
Defined.

(** X15: From [NewFPSCounter] on (the ticks atomic), [Duration] is the sum of
    the durations of the buckets, and the bucket being filled has
    duration 0. *)
Theorem Duration_is_sum seconds c now first acts :
  NewFPSCounter seconds = Some c →
  0 < seconds →
  len acts + 1 < 2 ^ 63 →
  ∃ g, run (runTicker c now first) acts = Some g ∧
    Duration (shared g) = wrap (foldr Z.add 0 (durations (shared g))) ∧
    durations (shared g)
      !! (Z.to_nat (ticks (shared g)) `mod` length (frames (shared g)))%nat = Some 0.
Proof.
  intros Hnew Hpos Hlen.
  destruct (NewFPSCounter_sound seconds c Hnew Hpos) as (Hwf & Hc & Ht).
  destruct (sound_run acts (runTicker c now first)) as (g & Hrun & Hwf' & _ & Hs & Hcur);
    try done.
  - replace (ticks (shared (runTicker c now first))) with 0; [unfold len in Hlen; lia|].
    by apply NewFPSCounter_Some in Hnew as [_ ->].
  - exists g. rewrite current_duration in Hcur by done. done.
Qed.

Lemma Duration_is_sum_witness :
  ∃ g, run (runTicker counter5 0 (1 * Second))
         [ActFrame; ActRecv (second 2); ActFrame; ActRecv (second 3)] = Some g ∧
       Duration (shared g) = 3 * Second.
Proof.
  destruct (Duration_is_sum 5 counter5 0 (1 * Second)
    [ActFrame; ActRecv (second 2); ActFrame; ActRecv (second 3)])
    as (g & Hrun & HD & _).
  - reflexivity.
  - reflexivity.
  - vm_compute. reflexivity.
  - exists g. split; [exact Hrun|]. rewrite HD.
    vm_compute in Hrun. injection Hrun as <-. vm_compute. reflexivity.
Defined.

(** *** The steady state *)

Lemma run_app g acts acts' :
  run g (acts ++ acts') = g' ← run g acts; run g' acts'.
Proof.
  revert g. induction acts as [|a acts IH]; intros g; simpl; [done|].
  destruct (step g a) as [g1|]; simpl; [apply IH | done].
Qed.

(** X16: A second like the ones before changes nothing: in a steady state
    with [R] frames per committed bucket, [R] more calls of [NextFrame]
    and a tick after the same duration leave the totals as they were,
    report the rate of these totals, and leave a steady state. *)
Theorem steady_second g (R : nat) dt t :
  wf (shared g) →
  (2 ≤ length (frames (shared g)))%nat →
  ticks (shared g) + 2 < 2 ^ 63 →
  Z.of_nat R < 2 ^ 63 →
  steady (Z.of_nat R) dt (shared g) →
  Sub t (lastTime g) = dt →
  - 2 ^ 63 ≤ totalFrames (shared g) < 2 ^ 63 →
  - 2 ^ 63 ≤ totalDuration (shared g) < 2 ^ 63 →
  ∃ g',
    run g (replicate R ActFrame ++ [ActRecv (RecvTick t)]) = Some g' ∧
    steady (Z.of_nat R) dt (shared g') ∧
    ticks (shared g') = ticks (shared g) + 1 ∧
    totalFrames (shared g') = totalFrames (shared g) ∧
    totalDuration (shared g') = totalDuration (shared g) ∧
    FPS (shared g') =
      (float64_of_int (totalFrames (shared g)) / Seconds (totalDuration (shared g)))%float.
Proof.
  intros Hwf HN Hr HR [Hfr Hdu] Hdt HtF HtD.
  destruct g as [c lt]. simpl in *.
  set (N := length (frames c)) in *. set (k := Z.to_nat (ticks c)) in *.
  set (i := (k `mod` N)%nat) in *.
  assert (Hi : (i < N)%nat) by (apply Nat.mod_upper_bound; lia).
  assert (Hi' : (S k `mod` N < N)%nat) by (apply Nat.mod_upper_bound; lia).
  assert (Hii' : i ≠ (S k `mod` N)%nat) by (apply mod_apart; lia).
  assert (HlenD : length (durations c) = N) by (destruct Hwf; done).
  assert (Hf0 : frames c !! i = Some 0).
  { rewrite Hfr. apply list_lookup_insert_eq. by rewrite length_replicate. }
  assert (HfR : <[i := Z.of_nat R]> (frames c) = replicate N (Z.of_nat R)).
  { rewrite Hfr, list_insert_insert_eq. apply list_insert_id.
    by apply lookup_replicate_2. }
  assert (HdR : <[i := dt]> (durations c) = replicate N dt).
  { rewrite Hdu, list_insert_insert_eq. apply list_insert_id.
    by apply lookup_replicate_2. }
  rewrite run_app.
  rewrite (frames_run R {| shared := c; lastTime := lt |} 0 Hwf Hf0) by lia.
  simpl. fold N k i. rewrite Z.add_0_l, HfR.
  match goal with |- context [tick ?c1 lt t] => assert (Hwf1 : wf c1) end.
  { destruct Hwf as [Hd ? ? ?]. split; simpl; rewrite ?length_replicate; done. }
  destruct (tick_explicit _ Hwf1 lt t) as (f & f' & d' & Hf & Hf' & Hd' & _ & ->).
  simpl in Hf, Hf', Hd' |- *. rewrite length_replicate in *. fold k i in Hf, Hf', Hd' |- *.
  rewrite lookup_replicate_2 in Hf, Hf' by done.
  injection Hf as <-. injection Hf' as <-.
  rewrite Hdt, HdR in Hd' |- *. rewrite lookup_replicate_2 in Hd' by done.
  injection Hd' as <-.
  assert (EF : wrap (wrap (totalFrames c + Z.of_nat R) - Z.of_nat R) = totalFrames c).
  { rewrite wrap_sub_l. replace (totalFrames c + Z.of_nat R - Z.of_nat R)
      with (totalFrames c) by lia. by apply wrap_id. }
  assert (ED : wrap (wrap (totalDuration c + dt) - dt) = totalDuration c).
  { rewrite wrap_sub_l. replace (totalDuration c + dt - dt)
      with (totalDuration c) by lia. by apply wrap_id. }
  rewrite EF, ED.
  eexists. split; [done|]. simpl. split_and!; try done.
  unfold steady. simpl. rewrite !length_insert, !length_replicate.
  replace (Z.to_nat (ticks c + 1)) with (S k) by (unfold k; destruct Hwf; lia).
  done.
Qed.

Lemma steady_second_witness :
  wf steady3 ∧ steady 30 Second steady3 ∧
  ∃ g', run {| shared := steady3; lastTime := 8 * Second |}
          (replicate 30 ActFrame ++ [ActRecv (second 9)]) = Some g' ∧
        totalFrames (shared g') = 60 ∧ FPS (shared g') = 30%float.
Proof.
  assert (Hwf : wf steady3) by (split; simpl; lia).
  assert (Hst : steady 30 Second steady3) by (split; reflexivity).
  split; [exact Hwf|]. split; [exact Hst|].
  destruct (steady_second {| shared := steady3; lastTime := 8 * Second |} 30 Second
              (9 * Second)) as (g' & Hrun & _ & _ & HF & _ & HR).
  - exact Hwf.
  - simpl. lia.
  - vm_compute. reflexivity.
  - vm_compute. reflexivity.
  - exact Hst.
  - reflexivity.
  - vm_compute. split; [discriminate | reflexivity].
  - vm_compute. split; [discriminate | reflexivity].
  - exists g'. split; [exact Hrun|]. split; [exact HF|]. rewrite HR.
    vm_compute. reflexivity.
Defined.

(** * Properties of MotionDetector *)

Import detector.

Lemma contour_loop_result m hasMarkup contours : ∀ i motionDetected,
  (contour_loop m hasMarkup i contours motionDetected).1
  = motionDetected || existsb (counts m) contours.
Proof.
  induction contours as [|c rest IH]; intros i d; simpl.
  - by rewrite orb_false_r.
  - unfold counts at 1. destruct (area c <? MinimumContourArea m)%float; simpl.
    + apply IH.
    + rewrite orb_true_r. destruct hasMarkup; simpl; [|done].
      specialize (IH (wrap (i + 1)) true).
      destruct (contour_loop m true (wrap (i + 1)) rest true). simpl in *. by rewrite IH.
Qed.


Lemma contour_loop_markup m contours : ∀ i motionDetected,
  0 ≤ i → i + len contours < 2 ^ 63 →
  (contour_loop m true i contours motionDetected).2
  = mjoin (imap (λ j c, if counts m c then markup m (i + Z.of_nat j) c else []) contours).
Proof.
  unfold len.
  induction contours as [|c rest IH]; intros i d Hi Hlen; simpl in *; [done|].
  rewrite wrap_id by lia. unfold counts at 1.
  destruct (area c <? MinimumContourArea m)%float; simpl.
  - rewrite IH by lia. f_equal. apply imap_ext. intros j c' _. simpl.
    replace (i + 1 + Z.of_nat j) with (i + Z.of_nat (S j)) by lia. done.
  - specialize (IH (i + 1) true ltac:(lia) ltac:(lia)).
    destruct (contour_loop m true (i + 1) rest true) as [d' calls]. simpl in *.
    rewrite IH, Z.add_0_r. do 2 f_equal. apply imap_ext. intros j c' _. simpl.
    replace (i + 1 + Z.of_nat j) with (i + Z.of_nat (S j)) by lia. done.
Qed.

(** X17: [Detected] returns [true] exactly when gocv found a contour whose
    area is not below [MinimumContourArea], whatever the markup switches
    are. *)
Theorem Detected_result m contours :
  (Detected m contours).1 = existsb (counts m) contours ∧
  ((Detected m contours).1 = true ↔
   ∃ c, c ∈ contours ∧ (area c <? MinimumContourArea m)%float = false).
Proof.
  assert (H1 : (Detected m contours).1 = existsb (counts m) contours).
  { unfold Detected.
    pose proof (contour_loop_result m (DrawContours m || DrawRects m) contours 0 false) as H.
    destruct (contour_loop m _ 0 contours false). simpl in *. done. }
  split; [done|]. rewrite H1, existsb_exists. unfold counts.
  split; intros (c & Hin & Hc); exists c.
  - split; [by apply list_elem_of_In|]. by apply negb_true_iff.
  - split; [by apply list_elem_of_In|]. by apply negb_true_iff.
Qed.

Lemma Detected_result_witness :
  (Detected NewMotionDetector
     [mkContour 10%float (5, 5, 6, 6); mkContour 5000%float (0, 0, 10, 10)]).1 = true.
Proof.
  apply (Detected_result NewMotionDetector).
  exists (mkContour 5000%float (0, 0, 10, 10)).
  split; [right; left | vm_compute; reflexivity].
Defined.



(** X19: With a markup switch on [Detected] draws every contour that counts,
    in the order gocv returned them and under its index, the contour
    before the rectangle, and no contour below the minimum area; the
    kernel is released after the last drawing. *)
Theorem Detected_markup m contours :
  DrawContours m || DrawRects m = true →
  len contours < 2 ^ 63 →
  (Detected m contours).2 =
    [CvApply; CvThreshold (Threshold m);
     CvGetStructuringElement (DilateSize m) (DilateSize m); CvDilate; CvFindContours]
    ++ mjoin (imap (λ j c, if counts m c then markup m (Z.of_nat j) c else []) contours)
    ++ [CvKernelClose].
Proof.
  intros Hm Hlen. unfold Detected. rewrite Hm.
  pose proof (contour_loop_markup m contours 0 false ltac:(lia) ltac:(lia)) as H.
  destruct (contour_loop m true 0 contours false). simpl in *. by rewrite H.
Qed.

Lemma Detected_markup_witness :
  Detected NewMotionDetector
    [mkContour 10%float (5, 5, 6, 6); mkContour 5000%float (0, 0, 10, 10)]
  = (true, [CvApply; CvThreshold (float32_of_int 25); CvGetStructuringElement 3 3;
            CvDilate; CvFindContours;
            CvDrawContours 1; CvRectangle (0, 0, 10, 10); CvKernelClose]).
Proof.
  pose proof (Detected_markup NewMotionDetector
    [mkContour 10%float (5, 5, 6, 6); mkContour 5000%float (0, 0, 10, 10)]
    eq_refl eq_refl) as H.
  destruct (Detected _ _) as [d calls] eqn:E. simpl in H. rewrite H.
  vm_compute in E. injection E as <- _. vm_compute. reflexivity.
Defined.

(** * Properties of PollInput *)

Import keys.

Lemma adjust_tuned field dir m : tuned m → tuned (adjust field dir m).
Proof.
  intros (Hd & Ha & Ht). unfold adjust, tuned.
  repeat case_bool_decide; simpl; try done.
  - split_and!; try done.
    match goal with |- context [if ?b then _ else _] => destruct b eqn:E end;
      [by vm_compute | done].
  - split_and!; try done. lia.
  - split_and!; try done.
    match goal with |- context [if ?b then _ else _] => destruct b eqn:E end;
      [by vm_compute | done].
Qed.

Lemma PollInput_tuned k s : tuned (Detector s) → tuned (Detector (PollInput k s)).
Proof.
  intros Ht. unfold PollInput.
  repeat case_bool_decide; simpl; try done; by apply adjust_tuned.
Qed.

(** X20: Whatever keys are pressed, the tuning values stay positive:
    [DilateSize] at least 1 (also past the end of [int]),
    [MinimumContourArea] and [Threshold] not at or below 0.  They are
    so in the detector [NewMotionDetector] returns. *)
Theorem PollInputs_tuned ks s :
  tuned (Detector s) → tuned (Detector (PollInputs ks s)).
Proof.
  revert s. induction ks as [|k ks IH]; intros s Ht; simpl; [done|].
  apply IH. by apply PollInput_tuned.
Qed.

Lemma PollInputs_tuned_witness :
  tuned (Detector initial) ∧
  tuned (Detector (PollInputs [100; 45; 45; 45; 116; 45] initial)) ∧
  DilateSize (Detector (PollInputs [100; 45; 45; 45; 116; 45] initial)) = 1.
Proof.
  assert (H0 : tuned (Detector initial)) by (split_and!; vm_compute; (reflexivity || discriminate)).
  split; [exact H0|]. split; [|vm_compute; reflexivity].
  apply (PollInputs_tuned [100; 45; 45; 45; 116; 45] initial H0).
Defined.

(** X21: [PollInput] sets [Done] on ctrl+c (key 3) and on no other key, and
    never clears it: after a sequence of keys [Done] is set exactly when
    it was set before or the sequence has a ctrl+c. *)
Theorem PollInputs_Done ks s :
  Done (PollInputs ks s) = true ↔ Done s = true ∨ 3 ∈ ks.
Proof.
  revert s. induction ks as [|k ks IH]; intros s; simpl.
  - split; [by left | intros [?|H]; [done | by apply elem_of_nil in H]].
  - rewrite IH. clear IH.
    assert (H1 : Done (PollInput k s) = true ↔ Done s = true ∨ k = 3).
    { unfold PollInput. repeat case_bool_decide; simpl; intuition congruence. }
    rewrite H1, elem_of_cons. intuition (subst; tauto).
Qed.

Lemma PollInputs_Done_witness : Done (PollInputs [109; 3; 45] initial) = true.
Proof.
  apply (PollInputs_Done [109; 3; 45] initial). right. right. left.
Defined.

Lemma rune_small k : - 2 ^ 31 ≤ k < 2 ^ 31 → rune k = k.
Proof. intros H. unfold rune. rewrite Z.mod_small; lia. Qed.

(** X22: Keys that undo themselves: [m], [c] and [r] pressed twice leave the
    variables as they were, and so does [=] followed by [-] while
    [DilateSize] is the chosen field and below the greatest [int].  ([-]
    followed by [=] does not at the least value: 1 stays 1, then
    becomes 2.) *)
Theorem PollInput_undo s :
  PollInput 109 (PollInput 109 s) = s ∧
  PollInput 99 (PollInput 99 s) = s ∧
  PollInput 114 (PollInput 114 s) = s ∧
  (FieldChanged s = 100 → 1 ≤ DilateSize (Detector s) < 2 ^ 63 - 1 →
     PollInput 45 (PollInput 61 s) = s) ∧
  (FieldChanged s = 100 → DilateSize (Detector s) = 1 →
     DilateSize (Detector (PollInput 61 (PollInput 45 s))) = 2).
Proof.
  destruct s as [[thr d a dc dr] en fc dn]. unfold PollInput.
  rewrite !(rune_small 109), !(rune_small 99), !(rune_small 114),
    !(rune_small 45), !(rune_small 61) by lia.
  simpl. split_and!.
  - repeat (case_bool_decide; try lia). simpl. by rewrite negb_involutive.
  - repeat (case_bool_decide; try lia). simpl. by rewrite negb_involutive.
  - repeat (case_bool_decide; try lia). simpl. by rewrite negb_involutive.
  - intros -> Hd. unfold adjust. simpl.
    change (wrap (1 * 1)) with 1. change (wrap (1 * -1)) with (-1).
    assert (Wd : wrap (d + 1) = d + 1) by (apply wrap_id; lia).
    assert (Wd' : wrap (d + 1 + -1) = d) by (rewrite wrap_id; lia).
    repeat case_bool_decide; simpl in *; rewrite ?Wd, ?Wd' in *;
      first [lia | tauto | done].
  - intros -> ->. unfold adjust. simpl.
    repeat case_bool_decide; simpl in *; first [lia | tauto | done].
Qed.

Lemma PollInput_undo_witness :
  PollInput 45 (PollInput 61 (PollInput 100 initial)) = PollInput 100 initial.
Proof.
  apply (PollInput_undo (PollInput 100 initial)).
  - reflexivity.
  - vm_compute. split; [discriminate | reflexivity].
Defined.

(** X23: A key changes at most one tuning value, the one [FieldChanged]
    chooses, and only [-] and [=] change any; the chosen field is always
    the one before or one of [a], [d], [t]. *)
Theorem PollInput_chosen_field k s :
  (FieldChanged s ≠ 97 ∨ (rune k ≠ 45 ∧ rune k ≠ 61) ∨ k = 3 →
     MinimumContourArea (Detector (PollInput k s)) = MinimumContourArea (Detector s)) ∧
  (FieldChanged s ≠ 100 ∨ (rune k ≠ 45 ∧ rune k ≠ 61) ∨ k = 3 →
     DilateSize (Detector (PollInput k s)) = DilateSize (Detector s)) ∧
  (FieldChanged s ≠ 116 ∨ (rune k ≠ 45 ∧ rune k ≠ 61) ∨ k = 3 →
     Threshold (Detector (PollInput k s)) = Threshold (Detector s)) ∧
  (FieldChanged (PollInput k s) = FieldChanged s ∨
   FieldChanged (PollInput k s) ∈ [97; 100; 116]).
Proof.
  unfold PollInput, adjust.
  split_and!; try intros H; repeat case_bool_decide; simpl; try done;
    try tauto; try (by left).
  all: right; rewrite !elem_of_cons; tauto.
Qed.

Lemma PollInput_chosen_field_witness :
  MinimumContourArea (Detector (PollInput 61 (PollInput 100 initial))) = 3000%float ∧
  DilateSize (Detector (PollInput 61 (PollInput 100 initial))) = 4.
Proof.
  split; [|vm_compute; reflexivity].
  destruct (PollInput_chosen_field 61 (PollInput 100 initial)) as (Ha & _).
  rewrite Ha; [reflexivity|]. left. vm_compute. discriminate.
Defined.
